(** * Diversity reward model: a model of
      [prompting/validators/reward/diversity.py]

    The Python class [DiversityRewardModel] keeps a bounded history of
    sentence embeddings and scores a batch of completions by how far each
    one is from the rest of the batch and from that history.

    Conventions of the model.
    - A float tensor element is a real number: rounding, infinities and NaN
      of float32 are outside the model.
    - A 2-D tensor is the list of its rows, a 1-D tensor a list of reals.
    - A Python exception is an explicit [Raise] outcome; methods that read
      or write [self] are state transformers over the record of [self]. *)

From Stdlib Require Import String.
From Stdlib Require Import List Arith Bool Lia.
From Stdlib Require Import Sorted Permutation.
From Stdlib Require Import Reals Lra.
Import ListNotations.

Set Implicit Arguments.
#[local] Set Warnings "-abstract-large-number".

(** ** Exceptions and the state-and-error monad *)

Inductive exn : Type :=
| IndexError
| RuntimeError.

Inductive outcome (A : Type) : Type :=
| Return (a : A)
| Raise (e : exn).

Arguments Return {A} a.
Arguments Raise {A} e.

Definition outcome_bind {A B : Type} (o : outcome A) (k : A -> outcome B)
  : outcome B :=
  match o with
  | Return a => k a
  | Raise e => Raise e
  end.

(** ** List kernels shared by the tensor operations

    Written over an arbitrary element type so that they run on small
    integer examples as well as on rows of reals. *)

Section Kernels.
Variable A : Type.
Variable eqb : A -> A -> bool.
Variable leb : A -> A -> bool.

(** The loop of the inner function [unique] of
    [update_historic_embeddings]: [acc] is [unique_embeddings]. *)
Fixpoint unique_loop (embeddings : list A) (last_emb : A) (acc : list A)
  : list A :=
  match embeddings with
  | [] => acc
  | emb :: rest =>
      unique_loop rest emb
        (if negb (eqb emb last_emb) then acc ++ [emb] else acc)
  end.

(** [unique]: [embeddings[0]] raises IndexError on a tensor without rows. *)
Definition unique (embeddings : list A) : outcome (list A) :=
  match embeddings with
  | [] => Raise IndexError
  | first :: _ => Return (unique_loop embeddings first [first])
  end.

(** The slice [t[-n:]] of Python: [-0] is [0], so [n = 0] keeps all. *)
Definition slice_last (n : nat) (t : list A) : list A :=
  if Nat.eqb n 0 then t else skipn (length t - n) t.

(** The slice [t[n:]]. *)
Definition slice_from (n : nat) (t : list A) : list A := skipn n t.

(** Ascending sort, the order in which [torch.topk(largest=False)]
    returns the values it selects. *)
Fixpoint insert_sorted (x : A) (l : list A) : list A :=
  match l with
  | [] => [x]
  | y :: t => if leb x y then x :: l else y :: insert_sorted x t
  end.

Fixpoint sort_ascending (l : list A) : list A :=
  match l with
  | [] => []
  | x :: t => insert_sorted x (sort_ascending t)
  end.

(** [torch.topk(row, k, largest=False)[0]] on one row. *)
Definition topk_smallest (k : nat) (row : list A) : list A :=
  firstn k (sort_ascending row).

(** [torch.topk(m, k, largest=False)[0][:, -1]] on a matrix [m]:
    [topk] raises RuntimeError when [k] exceeds the size of the last
    dimension, and [[:, -1]] raises IndexError on a last dimension of
    size 0. *)
Definition topk_last_column (d : A) (k : nat) (m : list (list A))
  : outcome (list A) :=
  if existsb (fun row => Nat.ltb (length row) k) m then Raise RuntimeError
  else if Nat.eqb k 0 then Raise IndexError
  else Return (map (fun row => last (topk_smallest k row) d) m).
End Kernels.

(** ** Tensors of reals *)

Local Open Scope R_scope.

Definition Vector : Type := list R.
Definition Tensor : Type := list Vector.

Definition Req_bool (x y : R) : bool :=
  if Req_dec_T x y then true else false.

Definition Rle_bool (x y : R) : bool :=
  if Rle_dec x y then true else false.

Definition Rgt_bool (x y : R) : bool :=
  if Rgt_dec x y then true else false.

(** [torch.all(torch.eq(a, b))] on two rows of one tensor. *)
Fixpoint all_eq (a b : Vector) : bool :=
  match a, b with
  | [], [] => true
  | x :: a', y :: b' => Req_bool x y && all_eq a' b'
  | _, _ => false
  end.

Definition dot (x y : Vector) : R :=
  fold_right Rplus 0 (map (fun p => fst p * snd p) (combine x y)).

Definition norm2 (x : Vector) : R := sqrt (dot x x).

(** A row divided by its norm.  For a row of norm 0 the library divides by
    zero and yields NaN, which is outside the model: what is stated about
    the value of a similarity is stated for rows of norm other than 0. *)
Definition unit_row (x : Vector) : Vector := map (fun a => a / norm2 x) x.

(** Modelled from the spec: [pairwise_cosine_similarity] of torchmetrics,
    which is imported by the module and not defined in it.  Entry (i, j)
    is the dot product of row i of [x] and row j of [y], each divided by
    its Euclidean norm; the diagonal is left as computed because a second
    tensor is passed. *)
Definition pairwise_cosine_similarity (x y : Tensor) : Tensor :=
  map (fun xi => map (fun yj => dot (unit_row xi) (unit_row yj)) y) x.

(** [1 - torch.abs(similarity)]. *)
Definition dissimilarity (similarity : Tensor) : Tensor :=
  map (map (fun s => 1 - Rabs s)) similarity.

(** ** The reward event and the model object *)

(** [DiversityRewardEvent]: the fields [historic] and [batch] default to
    [None]; [reward] is inherited from [BaseRewardEvent]. *)
Record DiversityRewardEvent : Type := {
  reward : R;
  historic : option R;
  batch : option R
}.

(** The attributes of [self] set by [__init__].  [sentence_encoder] stands
    for what [get_embeddings] computes with the tokenizer and the
    transformer, followed by [mean_pooling] and [F.normalize]: it maps the
    sentences to the tensor of their normalised embeddings, one row per
    sentence.  [forward_passes] is a ghost log of the calls made to it. *)
Record DiversityRewardModel : Type := {
  sentence_encoder : list string -> Tensor;
  reward_bottom_k : nat;
  history_reward_bottom_k : nat;
  historic_embeddings : Tensor;
  history_range : nat * nat;
  boundary : R;
  forward_passes : list (list string)
}.

(** [__init__]. *)
Definition init (encoder : list string -> Tensor) : DiversityRewardModel := {|
  sentence_encoder := encoder;
  reward_bottom_k := 2;
  history_reward_bottom_k := 2;
  historic_embeddings := [];
  history_range := (500%nat, 15500%nat);
  boundary := 0.5;
  forward_passes := []
|}.

Definition set_historic_embeddings (self : DiversityRewardModel) (h : Tensor)
  : DiversityRewardModel := {|
  sentence_encoder := sentence_encoder self;
  reward_bottom_k := reward_bottom_k self;
  history_reward_bottom_k := history_reward_bottom_k self;
  historic_embeddings := h;
  history_range := history_range self;
  boundary := boundary self;
  forward_passes := forward_passes self
|}.

Definition log_forward_pass (self : DiversityRewardModel)
  (sentences : list string) : DiversityRewardModel := {|
  sentence_encoder := sentence_encoder self;
  reward_bottom_k := reward_bottom_k self;
  history_reward_bottom_k := history_reward_bottom_k self;
  historic_embeddings := historic_embeddings self;
  history_range := history_range self;
  boundary := boundary self;
  forward_passes := forward_passes self ++ [sentences]
|}.

(** Methods: a computation reads and writes [self] and returns or raises. *)
Definition Method (A : Type) : Type :=
  DiversityRewardModel -> outcome A * DiversityRewardModel.

Definition ret {A : Type} (a : A) : Method A := fun self => (Return a, self).

Definition bind {A B : Type} (c : Method A) (k : A -> Method B) : Method B :=
  fun self =>
    match c self with
    | (Return a, self') => k a self'
    | (Raise e, self') => (Raise e, self')
    end.

(** A method that only reads [self]. *)
Definition reading {A : Type} (f : DiversityRewardModel -> outcome A)
  : Method A := fun self => (f self, self).

Notation "x <- c ;; k" := (bind c (fun x => k))
  (at level 61, c at next level, right associativity).
Notation "c ;;; k" := (bind c (fun _ => k))
  (at level 61, right associativity).

(** ** The methods *)

(** [get_embeddings]: one forward pass through the encoder. *)
Definition get_embeddings (sentences : list string) : Method Tensor :=
  fun self =>
    (Return (sentence_encoder self sentences), log_forward_pass self sentences).

(** [update_historic_embeddings]. *)
Definition update_historic_embeddings (embeddings : Tensor) : Method unit :=
  fun self =>
    match unique all_eq embeddings with
    | Raise e => (Raise e, self)
    | Return embeddings_unique =>
        let historic := historic_embeddings self ++ embeddings_unique in
        (Return tt,
         set_historic_embeddings self
           (slice_last (snd (history_range self)) historic))
    end.

(** The two inner functions [regularise]. *)
Definition regularise_historic (rewards : list R) : list R :=
  map (fun r => 1 / (1 + exp (-1000 * r + 50))) rewards.

Definition regularise_batch (rewards : list R) : list R :=
  map (fun r => 1 / (1 + exp (-40 * r + 4))) rewards.

(** [get_historic_rewards]: the inner [option] is Python's [None]. *)
Definition get_historic_rewards (self : DiversityRewardModel)
  (embeddings : Tensor) : outcome (option (list R)) :=
  if Nat.ltb (length (historic_embeddings self))
       (fst (history_range self) + history_reward_bottom_k self)
  then Return None
  else
    let similarity :=
      pairwise_cosine_similarity embeddings
        (slice_from (fst (history_range self)) (historic_embeddings self)) in
    let bottom_k := Nat.min (history_reward_bottom_k self) (length similarity) in
    outcome_bind (topk_last_column Rle_bool 0 bottom_k (dissimilarity similarity))
      (fun rewards => Return (Some (regularise_historic rewards))).

(** [get_batch_rewards]. *)
Definition get_batch_rewards (self : DiversityRewardModel)
  (embeddings : Tensor) : outcome (list R) :=
  let similarity := pairwise_cosine_similarity embeddings embeddings in
  let bottom_k := Nat.min (reward_bottom_k self) (length similarity) in
  outcome_bind (topk_last_column Rle_bool 0 bottom_k (dissimilarity similarity))
    (fun rewards => Return (regularise_batch rewards)).

(** What [get_rewards] returns: the list of events, or, on the early
    return, the pair of an empty tensor and [None]. *)
Inductive rewards_result : Type :=
| RewardEvents (reward_events : list DiversityRewardEvent)
| TensorAndNone (t : list R).

Definition event_with_history (bh : R * R) : DiversityRewardEvent :=
  {| reward := fst bh * snd bh; historic := Some (snd bh); batch := Some (fst bh) |}.

Definition event_without_history (b : R) : DiversityRewardEvent :=
  {| reward := b; historic := None; batch := Some b |}.

(** [get_rewards]. *)
Definition get_rewards (prompt : string) (completions : list string)
  (name : string) : Method rewards_result :=
  if Nat.eqb (length completions) 0 then ret (TensorAndNone [])
  else
    embeddings <- get_embeddings completions ;;
    batch_rewards <- reading (fun self => get_batch_rewards self embeddings) ;;
    historic_rewards <- reading (fun self => get_historic_rewards self embeddings) ;;
    update_historic_embeddings embeddings ;;;
    ret (RewardEvents
           match historic_rewards with
           | Some historic_rewards =>
               map event_with_history (combine batch_rewards historic_rewards)
           | None => map event_without_history batch_rewards
           end).

(** [normalize_rewards]: [(raw_rewards > self.boundary).float()]. *)
Definition normalize_rewards (self : DiversityRewardModel)
  (raw_rewards : list R) : list R :=
  map (fun r => if Rgt_bool r (boundary self) then 1 else 0) raw_rewards.

(** ** Specification-side definitions *)

Section KernelSpecs.
Variable A : Type.
Variable leb : A -> A -> bool.

(** The k-th smallest value of a row as the specification words it: sort
    ascending and take the value at rank [k - 1]. *)
Definition kth_smallest (d : A) (k : nat) (row : list A) : A :=
  nth (k - 1) (sort_ascending leb row) d.

(** A batch written as its runs: each pair is a value and the number of
    further copies that follow it. *)
Definition expand_runs (runs : list (A * nat)) : list A :=
  concat (map (fun r => repeat (fst r) (S (snd r))) runs).

(** Every run starts with a value other than the one before it. *)
Fixpoint runs_maximal (previous : A) (runs : list (A * nat)) : Prop :=
  match runs with
  | [] => True
  | r :: rest => fst r <> previous /\ runs_maximal (fst r) rest
  end.
End KernelSpecs.

(** The rows a batch contributes to the history. *)
Definition collapsed (embeddings : Tensor) : Tensor :=
  match unique all_eq embeddings with
  | Return embeddings_unique => embeddings_unique
  | Raise _ => []
  end.

(** Appending several batches, one call of [update_historic_embeddings]
    after the other. *)
Fixpoint append_all (batches : list Tensor) : Method unit :=
  match batches with
  | [] => ret tt
  | embeddings :: rest =>
      update_historic_embeddings embeddings ;;; append_all rest
  end.

(** The score of one embedding against a set of rows: the logistic
    [1 / (1 + exp (- slope * r + shift))] of the k-th smallest
    dissimilarity [r]. *)
Definition row_score (slope shift : R) (k : nat) (against : Tensor)
  (e : Vector) : R :=
  1 / (1 + exp (- slope * kth_smallest Rle_bool 0 k
                            (map (fun h => 1 - Rabs (dot (unit_row e) (unit_row h)))
                               against)
                + shift)).

(** The window of history the specification describes: the history with
    its most recent [history_range[0]] entries left out. *)
Definition settled_window (self : DiversityRewardModel) : Tensor :=
  firstn (length (historic_embeddings self) - fst (history_range self))
    (historic_embeddings self).

(** Runs that start a batch: there is a first run, and every later run
    starts with another value than the run before it. *)
Definition proper_runs (A : Type) (runs : list (A * nat)) : Prop :=
  match runs with
  | [] => False
  | r :: rest => runs_maximal (fst r) rest
  end.

(** The state [get_rewards] leaves behind on a batch with rows. *)
Definition after_scoring (self : DiversityRewardModel)
  (completions : list string) : DiversityRewardModel :=
  set_historic_embeddings (log_forward_pass self completions)
    (slice_last (snd (history_range self))
       (historic_embeddings self
        ++ collapsed (sentence_encoder self completions))).

(** The events built from the two reward tensors. *)
Definition events_of (batch_rewards : list R)
  (historic_rewards : option (list R)) : list DiversityRewardEvent :=
  match historic_rewards with
  | Some historic_rewards =>
      map event_with_history (combine batch_rewards historic_rewards)
  | None => map event_without_history batch_rewards
  end.

(** ** Concrete data used by the examples *)

Definition e1 : Vector := [1; 0].
Definition e2 : Vector := [0; 1].

(** An encoder that embeds every sentence as [e1]. *)
Definition constant_encoder (sentences : list string) : Tensor :=
  map (fun _ => e1) sentences.

(** 500 copies of [e1] followed by two copies of [e2]. *)
Definition recent_tail_history : Tensor := repeat e1 500 ++ [e2; e2].

Definition recent_tail_model : DiversityRewardModel :=
  set_historic_embeddings (init constant_encoder) recent_tail_history.

(** 501 copies of [e1] followed by one copy of [e2]. *)
Definition mixed_window_history : Tensor := repeat e1 501 ++ [e2].

Definition mixed_window_model : DiversityRewardModel :=
  set_historic_embeddings (init constant_encoder) mixed_window_history.

(** The reading of the historic comparison that leaves out the most recent
    entries of the history. *)
Definition scores_against_settled_history (self : DiversityRewardModel)
  (embeddings : Tensor) : Prop :=
  get_historic_rewards self embeddings
  = Return (Some (map (row_score 1000 50
                         (Nat.min (history_reward_bottom_k self)
                            (length embeddings))
                         (settled_window self))
                    embeddings)).

(** ** Token pooling and normalisation behind [get_embeddings] *)

(** A 3-D tensor: what [size()] returns and the entries, indexed by
    sentence, token and hidden dimension. *)
Record Tensor3 : Type := {
  size3 : nat * nat * nat;
  entries3 : list (list Vector)
}.

(** The entries agree with the size. *)
Definition shaped (t : Tensor3) : Prop :=
  let '(b, n, d) := size3 t in
  length (entries3 t) = b /\
  Forall (fun tokens =>
            length tokens = n /\ Forall (fun row => length row = d) tokens)
    (entries3 t).

(** One dimension of [Tensor.expand]: a dimension of the requested size is
    kept, a dimension of size 1 is repeated, anything else raises
    RuntimeError. *)
Definition expand_dim (A : Type) (n : nat) (l : list A) : outcome (list A) :=
  if Nat.eqb (length l) n then Return l
  else match l with
       | [x] => Return (repeat x n)
       | _ => Raise RuntimeError
       end.

Fixpoint traverse (A B : Type) (f : A -> outcome B) (l : list A)
  : outcome (list B) :=
  match l with
  | [] => Return []
  | x :: t =>
      outcome_bind (f x) (fun y =>
      outcome_bind (traverse f t) (fun ys => Return (y :: ys)))
  end.

(** [attention_mask.unsqueeze(-1).expand(size).float()] for a mask of
    integers with one row per sentence. *)
Definition expand_mask (size : nat * nat * nat) (attention_mask : list (list Z))
  : outcome (list (list Vector)) :=
  let '(b, n, d) := size in
  outcome_bind (expand_dim b attention_mask) (fun rows =>
  outcome_bind (traverse (expand_dim n) rows) (fun rows' =>
  Return (map (map (fun m => repeat (IZR m) d)) rows'))).

Definition vec_add (a b : Vector) : Vector :=
  map (fun p => fst p + snd p) (combine a b).

Definition vec_mul (a b : Vector) : Vector :=
  map (fun p => fst p * snd p) (combine a b).

Definition vec_div (a b : Vector) : Vector :=
  map (fun p => fst p / snd p) (combine a b).

(** [torch.sum(t, 1)] on the tokens of one sentence, rows of size [d]. *)
Definition sum_tokens (d : nat) (tokens : list Vector) : Vector :=
  fold_right vec_add (repeat 0 d) tokens.

(** [torch.clamp(t, min=1e-9)] on one row. *)
Definition clamp_min (bound : R) (row : Vector) : Vector :=
  map (fun a => Rmax a bound) row.

(** [mean_pooling]: [model_output[0]] holds the token embeddings. *)
Definition mean_pooling (model_output : Tensor3 * Tensor)
  (attention_mask : list (list Z)) : outcome Tensor :=
  let token_embeddings := fst model_output in
  let d := snd (size3 token_embeddings) in
  outcome_bind (expand_mask (size3 token_embeddings) attention_mask)
    (fun input_mask_expanded =>
       Return
         (map (fun p =>
                 vec_div
                   (sum_tokens d
                      (map (fun q => vec_mul (fst q) (snd q))
                         (combine (fst p) (snd p))))
                   (clamp_min 1e-9 (sum_tokens d (snd p))))
            (combine (entries3 token_embeddings) input_mask_expanded))).

(** Modelled from the spec: [F.normalize(t, p=2, dim=1)] of torch, which
    the module imports: each row divided by its Euclidean norm, the norm
    being taken as at least 1e-12. *)
Definition F_normalize (t : Tensor) : Tensor :=
  map (fun row => map (fun a => a / Rmax (norm2 row) 1e-12) row) t.

(** The body of [get_embeddings] after the tokenizer and the transformer
    have produced the attention mask and the model output. *)
Definition pool_and_normalize (model_output : Tensor3 * Tensor)
  (attention_mask : list (list Z)) : outcome Tensor :=
  outcome_bind (mean_pooling model_output attention_mask)
    (fun sentence_embeddings => Return (F_normalize sentence_embeddings)).

(** ** Further specification-side definitions *)

Section RunSpecs.
Variable A : Type.
Variable eqb : A -> A -> bool.

(** The elements of [l] that differ from their predecessor, [previous]
    being the predecessor of the first. *)
Fixpoint run_heads (previous : A) (l : list A) : list A :=
  match l with
  | [] => []
  | x :: t => if eqb x previous then run_heads x t else x :: run_heads x t
  end.

(** No element equals its successor. *)
Fixpoint adjacent_distinct (l : list A) : Prop :=
  match l with
  | [] => True
  | x :: t =>
      match t with
      | [] => True
      | y :: _ => x <> y
      end /\ adjacent_distinct t
  end.
End RunSpecs.

(** Several scoring requests, one call of [get_rewards] after the other;
    the results are collected in order. *)
Fixpoint score_all (prompt name : string) (requests : list (list string))
  : Method (list rewards_result) :=
  match requests with
  | [] => ret []
  | completions :: rest =>
      r <- get_rewards prompt completions name ;;
      rs <- score_all prompt name rest ;;
      ret (r :: rs)
  end.

(** ** Kernel lemmas *)

Section KernelFacts.
Variable A : Type.
Variable leb : A -> A -> bool.

Lemma insert_sorted_length (x : A) (l : list A) :
  length (insert_sorted leb x l) = S (length l).
Proof.
  induction l as [|y t IH]; simpl; [reflexivity|].
  destruct (leb x y); simpl; congruence.
Qed.

Lemma sort_ascending_length (l : list A) :
  length (sort_ascending leb l) = length l.
Proof.
  induction l as [|x t IH]; simpl; [reflexivity|].
  rewrite insert_sorted_length; congruence.
Qed.

Lemma last_firstn (d : A) (l : list A) (k : nat) :
  (1 <= k <= length l)%nat -> last (firstn k l) d = nth (k - 1) l d.
Proof.
  revert k; induction l as [|x t IH]; intros k [Hk Hl]; simpl in *; [lia|].
  destruct k as [|k]; [lia|]. simpl.
  destruct k as [|k]; simpl.
  - reflexivity.
  - destruct t as [|y t']; simpl in *; [lia|].
    specialize (IH (S k)). simpl in IH.
    rewrite Nat.sub_0_r in IH. apply IH. lia.
Qed.

Lemma topk_last_is_kth (d : A) (k : nat) (row : list A) :
  (1 <= k <= length row)%nat ->
  last (topk_smallest leb k row) d = kth_smallest leb d k row.
Proof.
  intros H. unfold topk_smallest, kth_smallest.
  apply last_firstn. rewrite sort_ascending_length. exact H.
Qed.

Lemma topk_last_column_returns (d : A) (k : nat) (m : list (list A)) :
  (1 <= k)%nat ->
  Forall (fun row => (k <= length row)%nat) m ->
  topk_last_column leb d k m = Return (map (kth_smallest leb d k) m).
Proof.
  intros Hk Hm. unfold topk_last_column.
  assert (E : existsb (fun row => Nat.ltb (length row) k) m = false).
  { induction Hm as [|row m' Hr _ IH]; simpl; [reflexivity|].
    rewrite IH, orb_false_r. apply Nat.ltb_ge. exact Hr. }
  rewrite E. destruct (Nat.eqb_spec k 0); [lia|].
  f_equal. apply map_ext_in. intros row Hin.
  apply topk_last_is_kth. split; [exact Hk|].
  rewrite Forall_forall in Hm. apply Hm. exact Hin.
Qed.

Lemma last_behind_prefix (d : A) (prefix l : list A) :
  l <> [] -> last (prefix ++ l) d = last l d.
Proof.
  intros Hl. induction prefix as [|x p IH]; [reflexivity|].
  simpl. rewrite IH.
  destruct (p ++ l) eqn:E; [|reflexivity].
  apply app_eq_nil in E. destruct E as [_ E]. contradiction.
Qed.

Lemma slice_last_length (n : nat) (t : list A) :
  (0 < n)%nat -> length (slice_last n t) = Nat.min n (length t).
Proof.
  intros Hn. unfold slice_last.
  destruct (Nat.eqb_spec n 0); [lia|].
  rewrite length_skipn. lia.
Qed.

Lemma slice_last_suffix (n : nat) (t : list A) :
  t = firstn (length t - n) t ++ slice_last n t \/ (n = 0)%nat.
Proof.
  unfold slice_last. destruct (Nat.eqb_spec n 0); [right; assumption|].
  left. symmetry. apply firstn_skipn.
Qed.

Lemma skipn_behind_prefix (n : nat) (d s u : list A) :
  length s = n ->
  skipn (length (s ++ u) - n) (s ++ u)
  = skipn (length ((d ++ s) ++ u) - n) ((d ++ s) ++ u).
Proof.
  intros Hs. rewrite <- app_assoc, !length_app.
  replace (length d + (length s + length u) - n)%nat
    with (length d + (length s + length u - n))%nat by lia.
  rewrite (skipn_app _ d), (skipn_all2 d) by lia. simpl.
  f_equal. lia.
Qed.

Lemma slice_last_app (n : nat) (t u : list A) :
  (0 < n)%nat ->
  slice_last n (slice_last n t ++ u) = slice_last n (t ++ u).
Proof.
  intros Hn. unfold slice_last.
  destruct (Nat.eqb_spec n 0); [lia|].
  destruct (Nat.le_gt_cases (length t) n) as [Hle|Hgt].
  - replace (length t - n)%nat with 0%nat by lia. reflexivity.
  - pose proof (@skipn_behind_prefix n (firstn (length t - n) t)
                  (skipn (length t - n) t) u) as H.
    rewrite firstn_skipn in H. apply H.
    rewrite length_skipn. lia.
Qed.
End KernelFacts.

(** ** The sort behind [topk] orders the row *)

Section SortFacts.
Variable A : Type.
Variable leb : A -> A -> bool.
Hypothesis leb_total : forall x y, leb x y = true \/ leb y x = true.
Hypothesis leb_trans :
  forall x y z, leb x y = true -> leb y z = true -> leb x z = true.

Lemma insert_sorted_perm (x : A) (l : list A) :
  Permutation (insert_sorted leb x l) (x :: l).
Proof.
  induction l as [|y t IH]; simpl; [apply Permutation_refl|].
  destruct (leb x y); [apply Permutation_refl|].
  apply perm_trans with (y :: x :: t); [|apply perm_swap].
  apply perm_skip. exact IH.
Qed.

Lemma sort_ascending_perm (l : list A) :
  Permutation (sort_ascending leb l) l.
Proof.
  induction l as [|x t IH]; simpl; [apply perm_nil|].
  apply perm_trans with (x :: sort_ascending leb t).
  - apply insert_sorted_perm.
  - apply perm_skip. exact IH.
Qed.

Lemma insert_sorted_ordered (x : A) (l : list A) :
  StronglySorted (fun a b => leb a b = true) l ->
  StronglySorted (fun a b => leb a b = true) (insert_sorted leb x l).
Proof.
  induction 1 as [|y t Hs IH Hall]; simpl.
  - constructor; constructor.
  - destruct (leb x y) eqn:E.
    + constructor; [constructor; assumption|].
      constructor; [exact E|].
      rewrite Forall_forall in *. intros z Hz.
      apply leb_trans with y; [exact E | apply Hall; exact Hz].
    + constructor; [exact IH|].
      apply (Permutation_Forall (Permutation_sym (insert_sorted_perm x t))).
      constructor; [|exact Hall].
      destruct (leb_total x y) as [H|H]; [congruence | exact H].
Qed.

Lemma sort_ascending_ordered (l : list A) :
  StronglySorted (fun a b => leb a b = true) (sort_ascending leb l).
Proof.
  induction l as [|x t IH]; simpl; [constructor|].
  apply insert_sorted_ordered. exact IH.
Qed.

Lemma ordered_around (below above : list A) (v : A) :
  StronglySorted (fun a b => leb a b = true) (below ++ v :: above) ->
  Forall (fun x => leb x v = true) below /\
  Forall (fun x => leb v x = true) above.
Proof.
  induction below as [|x b IH]; simpl; intros H; inversion H; subst.
  - split; [constructor | assumption].
  - destruct (IH H2) as [Hb Ha]. split; [|exact Ha].
    constructor; [|exact Hb].
    rewrite Forall_forall in H3. apply H3.
    apply in_or_app. right. left. reflexivity.
Qed.

(** The value at rank [k - 1] of the sorted row has [k - 1] entries of the
    row at or below it and all the others at or above it. *)
Lemma kth_smallest_rank (d : A) (k : nat) (row : list A) :
  (1 <= k <= length row)%nat ->
  exists below above : list A,
    Permutation row (below ++ kth_smallest leb d k row :: above) /\
    length below = (k - 1)%nat /\
    Forall (fun x => leb x (kth_smallest leb d k row) = true) below /\
    Forall (fun x => leb (kth_smallest leb d k row) x = true) above.
Proof.
  intros Hk. unfold kth_smallest.
  destruct (@nth_split _ (k - 1) (sort_ascending leb row) d)
    as [below [above [Hs Hl]]].
  { rewrite sort_ascending_length. lia. }
  exists below, above.
  pose proof (sort_ascending_ordered row) as Ho.
  rewrite Hs in Ho at 1. apply ordered_around in Ho.
  split; [|split; [exact Hl | exact Ho]].
  rewrite <- Hs. apply Permutation_sym. apply sort_ascending_perm.
Qed.
End SortFacts.

(** ** The kernels on small inputs *)

Example unique_on_runs :
  unique Nat.eqb [3; 3; 5; 5; 5; 3]%nat = Return [3; 5; 3]%nat.
Proof. reflexivity. Qed.

Example unique_on_no_rows : unique Nat.eqb [] = Raise IndexError.
Proof. reflexivity. Qed.

Example slice_last_drops_front : slice_last 2 [1; 2; 3]%nat = [2; 3]%nat.
Proof. reflexivity. Qed.

Example slice_last_short : slice_last 5 [1; 2; 3]%nat = [1; 2; 3]%nat.
Proof. reflexivity. Qed.

Example topk_second_smallest :
  topk_last_column Nat.leb 0%nat 2 [[4; 1; 3]; [9; 7; 8]]%nat
  = Return [3; 8]%nat.
Proof. reflexivity. Qed.

Example topk_rank_beyond_columns :
  topk_last_column Nat.leb 0%nat 3 [[4; 1]]%nat = Raise RuntimeError.
Proof. reflexivity. Qed.

Example topk_rank_zero :
  topk_last_column Nat.leb 0%nat 0 [[4; 1]]%nat = Raise IndexError.
Proof. reflexivity. Qed.

(** ** Facts about [unique] *)

Section UniqueFacts.
Variable A : Type.
Variable eqb : A -> A -> bool.
Hypothesis eqb_spec : forall x y, eqb x y = true <-> x = y.

Lemma eqb_same (x : A) : eqb x x = true.
Proof. apply eqb_spec. reflexivity. Qed.

Lemma eqb_other (x y : A) : x <> y -> eqb x y = false.
Proof.
  intros H. destruct (eqb x y) eqn:E; [|reflexivity].
  apply eqb_spec in E. contradiction.
Qed.

Lemma unique_loop_skips_copies (v : A) (n : nat) (rest acc : list A) :
  unique_loop eqb (repeat v n ++ rest) v acc = unique_loop eqb rest v acc.
Proof.
  induction n as [|n IH]; simpl; [reflexivity|].
  rewrite eqb_same. simpl. exact IH.
Qed.

Lemma expand_runs_cons (v : A) (n : nat) (rest : list (A * nat)) :
  expand_runs ((v, n) :: rest) = v :: repeat v n ++ expand_runs rest.
Proof. reflexivity. Qed.

Lemma unique_loop_runs (runs : list (A * nat)) :
  forall (previous : A) (acc : list A),
    runs_maximal previous runs ->
    unique_loop eqb (expand_runs runs) previous acc = acc ++ map fst runs.
Proof.
  induction runs as [|[v n] rest IH]; intros previous acc H.
  - simpl. rewrite app_nil_r. reflexivity.
  - destruct H as [Hne Hrest]. simpl in Hne, Hrest.
    rewrite expand_runs_cons. cbn [unique_loop].
    rewrite (eqb_other Hne). cbn [negb].
    rewrite unique_loop_skips_copies.
    rewrite (IH v (acc ++ [v]) Hrest).
    rewrite <- app_assoc. reflexivity.
Qed.

Lemma unique_of_runs (runs : list (A * nat)) :
  proper_runs runs ->
  unique eqb (expand_runs runs) = Return (map fst runs).
Proof.
  destruct runs as [|[v n] rest]; cbn [proper_runs fst]; [contradiction|].
  intros H. rewrite expand_runs_cons. unfold unique. cbn [unique_loop].
  rewrite eqb_same. cbn [negb].
  rewrite unique_loop_skips_copies.
  rewrite (unique_loop_runs rest v [v] H). reflexivity.
Qed.

Lemma runs_exist (l : list A) :
  l <> [] -> exists runs, proper_runs runs /\ l = expand_runs runs.
Proof.
  induction l as [|x t IH]; intros Hne; [contradiction|].
  destruct t as [|y t'].
  - exists [(x, 0%nat)]. split; [exact I | reflexivity].
  - destruct IH as [runs [Hp He]]; [discriminate|].
    destruct runs as [|[v n] rest]; [contradiction|].
    simpl in Hp.
    destruct (eqb x v) eqn:E.
    + apply eqb_spec in E. subst v.
      exists ((x, S n) :: rest). split; [exact Hp|].
      rewrite He, !expand_runs_cons. reflexivity.
    + exists ((x, 0%nat) :: (v, n) :: rest). split.
      * simpl. split; [|exact Hp].
        intros Hvx. subst v. rewrite eqb_same in E. discriminate.
      * rewrite He. reflexivity.
Qed.

Lemma unique_of_copies (v : A) (n : nat) :
  unique eqb (repeat v (S n)) = Return [v].
Proof.
  pose proof (unique_of_runs [(v, n)] I) as H.
  unfold expand_runs in H. simpl in H. rewrite app_nil_r in H. exact H.
Qed.
End UniqueFacts.

(** ** Facts about rows of reals *)

Lemma Req_bool_spec (x y : R) : Req_bool x y = true <-> x = y.
Proof.
  unfold Req_bool. destruct (Req_dec_T x y); split; intros H;
    congruence.
Qed.

Lemma all_eq_spec (a b : Vector) : all_eq a b = true <-> a = b.
Proof.
  revert b; induction a as [|x a' IH]; intros [|y b']; simpl;
    try (split; [discriminate | discriminate]); [tauto|].
  rewrite andb_true_iff, Req_bool_spec, IH.
  split; [intros [-> ->]; reflexivity | intros H; inversion H; auto].
Qed.

Lemma unit_row_of_unit (v : Vector) : dot v v = 1 -> unit_row v = v.
Proof.
  intros H. unfold unit_row, norm2. rewrite H, sqrt_1.
  rewrite <- (map_id v) at 2. apply map_ext. intros a. lra.
Qed.

Lemma norm2_e1 : norm2 e1 = 1.
Proof.
  unfold norm2, dot, e1. simpl.
  replace (1 * 1 + (0 * 0 + 0)) with 1 by lra. apply sqrt_1.
Qed.

Lemma norm2_e2 : norm2 e2 = 1.
Proof.
  unfold norm2, dot, e2. simpl.
  replace (0 * 0 + (1 * 1 + 0)) with 1 by lra. apply sqrt_1.
Qed.

Lemma cosine_e1_e1 : dot (unit_row e1) (unit_row e1) = 1.
Proof. unfold unit_row. rewrite norm2_e1. unfold dot, e1. simpl. lra. Qed.

Lemma cosine_e1_e2 : dot (unit_row e1) (unit_row e2) = 0.
Proof.
  unfold unit_row. rewrite norm2_e1, norm2_e2. unfold dot, e1, e2. simpl. lra.
Qed.

Lemma e1_not_e2 : e1 <> e2.
Proof. unfold e1, e2. intros H. inversion H. lra. Qed.

Lemma Rle_bool_true (x y : R) : x <= y -> Rle_bool x y = true.
Proof. intros H. unfold Rle_bool. destruct (Rle_dec x y); tauto. Qed.

Lemma Rle_bool_false (x y : R) : y < x -> Rle_bool x y = false.
Proof.
  intros H. unfold Rle_bool. destruct (Rle_dec x y); [lra | reflexivity].
Qed.

Lemma Rgt_bool_true (x y : R) : x > y -> Rgt_bool x y = true.
Proof. intros H. unfold Rgt_bool. destruct (Rgt_dec x y); tauto. Qed.

Lemma Rgt_bool_false (x y : R) : x <= y -> Rgt_bool x y = false.
Proof.
  intros H. unfold Rgt_bool. destruct (Rgt_dec x y); [lra | reflexivity].
Qed.

Lemma Rle_bool_total (x y : R) : Rle_bool x y = true \/ Rle_bool y x = true.
Proof.
  destruct (Rle_or_lt x y) as [H|H].
  - left. apply Rle_bool_true. exact H.
  - right. apply Rle_bool_true. lra.
Qed.

Lemma Rle_bool_le (x y : R) : Rle_bool x y = true <-> x <= y.
Proof.
  unfold Rle_bool. destruct (Rle_dec x y); split; intros H;
    try assumption; try reflexivity; try discriminate; contradiction.
Qed.

Lemma Rle_bool_trans (x y z : R) :
  Rle_bool x y = true -> Rle_bool y z = true -> Rle_bool x z = true.
Proof. rewrite !Rle_bool_le. lra. Qed.

(** On a row of reals the value [topk] selects is the k-th smallest:
    [k - 1] entries of the row are at or below it and the others at or
    above it. *)
Lemma row_kth_smallest_rank (k : nat) (row : list R) :
  (1 <= k <= length row)%nat ->
  exists below above : list R,
    Permutation row (below ++ kth_smallest Rle_bool 0 k row :: above) /\
    length below = (k - 1)%nat /\
    Forall (fun x => x <= kth_smallest Rle_bool 0 k row) below /\
    Forall (fun x => kth_smallest Rle_bool 0 k row <= x) above.
Proof.
  intros Hk.
  destruct (@kth_smallest_rank _ Rle_bool Rle_bool_total Rle_bool_trans
              0 k row Hk) as [below [above [Hp [Hl [Hb Ha]]]]].
  exists below, above. split; [exact Hp|]. split; [exact Hl|].
  split; [revert Hb | revert Ha]; apply Forall_impl; intros a;
    apply Rle_bool_le.
Qed.

(** ** Facts about the scoring methods *)

Lemma pairwise_rows (x y : Tensor) :
  length (pairwise_cosine_similarity x y) = length x.
Proof. unfold pairwise_cosine_similarity. apply length_map. Qed.

Lemma dissimilarity_row_widths (x y : Tensor) (k : nat) :
  (k <= length y)%nat ->
  Forall (fun row => (k <= length row)%nat)
    (dissimilarity (pairwise_cosine_similarity x y)).
Proof.
  intros H. unfold dissimilarity, pairwise_cosine_similarity.
  rewrite Forall_forall. intros row Hin.
  rewrite map_map in Hin. apply in_map_iff in Hin.
  destruct Hin as [xi [<- _]]. rewrite !length_map. exact H.
Qed.

Lemma scores_of_rows (slope shift : R) (k : nat) (x y : Tensor) :
  map (fun r => 1 / (1 + exp (- slope * r + shift)))
    (map (kth_smallest Rle_bool 0 k)
       (dissimilarity (pairwise_cosine_similarity x y)))
  = map (row_score slope shift k y) x.
Proof.
  unfold dissimilarity, pairwise_cosine_similarity.
  rewrite !map_map. apply map_ext. intros xi.
  unfold row_score. rewrite map_map. reflexivity.
Qed.

Lemma get_batch_rewards_returns (self : DiversityRewardModel)
  (embeddings : Tensor) :
  (1 <= reward_bottom_k self)%nat ->
  embeddings <> [] ->
  get_batch_rewards self embeddings
  = Return (map (row_score 40 4
                   (Nat.min (reward_bottom_k self) (length embeddings))
                   embeddings)
              embeddings).
Proof.
  intros Hk Hne. unfold get_batch_rewards.
  rewrite pairwise_rows.
  assert (Hlen : (1 <= length embeddings)%nat).
  { destruct embeddings; [contradiction | simpl; lia]. }
  rewrite topk_last_column_returns.
  - simpl. f_equal. unfold regularise_batch.
    rewrite <- scores_of_rows. apply map_ext. intros r.
    replace (-40 * r + 4) with (- (40) * r + 4) by lra. reflexivity.
  - lia.
  - apply dissimilarity_row_widths. lia.
Qed.

Lemma get_historic_rewards_absent (self : DiversityRewardModel)
  (embeddings : Tensor) :
  (length (historic_embeddings self)
   < fst (history_range self) + history_reward_bottom_k self)%nat ->
  get_historic_rewards self embeddings = Return None.
Proof.
  intros H. unfold get_historic_rewards.
  apply Nat.ltb_lt in H. rewrite H. reflexivity.
Qed.

Lemma get_historic_rewards_present (self : DiversityRewardModel)
  (embeddings : Tensor) :
  (fst (history_range self) + history_reward_bottom_k self
   <= length (historic_embeddings self))%nat ->
  (1 <= history_reward_bottom_k self)%nat ->
  embeddings <> [] ->
  get_historic_rewards self embeddings
  = Return (Some (map (row_score 1000 50
                         (Nat.min (history_reward_bottom_k self)
                            (length embeddings))
                         (skipn (fst (history_range self))
                            (historic_embeddings self)))
                    embeddings)).
Proof.
  intros Hsize Hk Hne. unfold get_historic_rewards, slice_from.
  apply Nat.ltb_ge in Hsize as Hb. rewrite Hb.
  rewrite pairwise_rows.
  assert (Hlen : (1 <= length embeddings)%nat).
  { destruct embeddings; [contradiction | simpl; lia]. }
  rewrite topk_last_column_returns.
  - simpl. do 2 f_equal. unfold regularise_historic.
    rewrite <- scores_of_rows. apply map_ext. intros r.
    replace (-1000 * r + 50) with (- (1000) * r + 50) by lra. reflexivity.
  - lia.
  - apply dissimilarity_row_widths. rewrite length_skipn. lia.
Qed.

Lemma unique_returns (embeddings : Tensor) :
  embeddings <> [] ->
  unique all_eq embeddings = Return (collapsed embeddings).
Proof.
  intros H. unfold collapsed.
  destruct embeddings; [contradiction | reflexivity].
Qed.

Lemma update_returns (self : DiversityRewardModel) (embeddings : Tensor) :
  embeddings <> [] ->
  update_historic_embeddings embeddings self
  = (Return tt,
     set_historic_embeddings self
       (slice_last (snd (history_range self))
          (historic_embeddings self ++ collapsed embeddings))).
Proof.
  intros H. unfold update_historic_embeddings.
  rewrite (unique_returns H). reflexivity.
Qed.

Lemma get_rewards_runs (self : DiversityRewardModel) (prompt name : string)
  (completions : list string) (batch_rewards : list R)
  (historic_rewards : option (list R)) :
  completions <> [] ->
  sentence_encoder self completions <> [] ->
  get_batch_rewards self (sentence_encoder self completions)
  = Return batch_rewards ->
  get_historic_rewards self (sentence_encoder self completions)
  = Return historic_rewards ->
  get_rewards prompt completions name self
  = (Return (RewardEvents (events_of batch_rewards historic_rewards)),
     after_scoring self completions).
Proof.
  intros Hc He Hb Hh. unfold get_rewards.
  destruct completions as [|c cs]; [contradiction|].
  cbn [length Nat.eqb].
  unfold bind, get_embeddings, reading.
  cbn [sentence_encoder log_forward_pass].
  change (get_batch_rewards (log_forward_pass self (c :: cs)))
    with (get_batch_rewards self).
  rewrite Hb.
  change (get_historic_rewards (log_forward_pass self (c :: cs)))
    with (get_historic_rewards self).
  rewrite Hh.
  rewrite (update_returns _ He). reflexivity.
Qed.

Lemma row_scores_length (slope shift : R) (k : nat) (against x : Tensor) :
  length (map (row_score slope shift k against) x) = length x.
Proof. apply length_map. Qed.

Lemma events_of_length (batch_rewards : list R)
  (historic_rewards : option (list R)) :
  match historic_rewards with
  | Some hs => length hs = length batch_rewards
  | None => True
  end ->
  length (events_of batch_rewards historic_rewards) = length batch_rewards.
Proof.
  destruct historic_rewards as [hs|]; simpl; intros H.
  - rewrite length_map, length_combine. lia.
  - apply length_map.
Qed.

(** Under the usual conditions both reward tensors are produced, one
    entry per embedding, and [get_rewards] returns the events built from
    them. *)
Lemma get_rewards_total (self : DiversityRewardModel) (prompt name : string)
  (completions : list string) :
  completions <> [] ->
  length (sentence_encoder self completions) = length completions ->
  (1 <= reward_bottom_k self)%nat ->
  (1 <= history_reward_bottom_k self)%nat ->
  let embeddings := sentence_encoder self completions in
  let batch_rewards :=
    map (row_score 40 4
           (Nat.min (reward_bottom_k self) (length embeddings)) embeddings)
      embeddings in
  let historic_rewards :=
    if Nat.ltb (length (historic_embeddings self))
         (fst (history_range self) + history_reward_bottom_k self)
    then None
    else Some (map (row_score 1000 50
                      (Nat.min (history_reward_bottom_k self)
                         (length embeddings))
                      (skipn (fst (history_range self))
                         (historic_embeddings self)))
                 embeddings) in
  get_batch_rewards self embeddings = Return batch_rewards /\
  get_historic_rewards self embeddings = Return historic_rewards /\
  get_rewards prompt completions name self
  = (Return (RewardEvents (events_of batch_rewards historic_rewards)),
     after_scoring self completions).
Proof.
  intros Hc Hlen Hkb Hkh embeddings batch_rewards historic_rewards.
  assert (He : embeddings <> []).
  { unfold embeddings. intros E. rewrite E in Hlen.
    destruct completions; [contradiction | discriminate]. }
  assert (Hb : get_batch_rewards self embeddings = Return batch_rewards).
  { apply get_batch_rewards_returns; assumption. }
  assert (Hh : get_historic_rewards self embeddings = Return historic_rewards).
  { unfold historic_rewards.
    destruct (Nat.ltb_spec (length (historic_embeddings self))
                (fst (history_range self) + history_reward_bottom_k self)).
    - apply get_historic_rewards_absent. assumption.
    - apply get_historic_rewards_present; assumption. }
  split; [exact Hb|]. split; [exact Hh|].
  apply get_rewards_runs; assumption.
Qed.

Lemma logistic_injective (a b : R) :
  1 / (1 + exp a) = 1 / (1 + exp b) -> a = b.
Proof.
  intros H. unfold Rdiv in H. rewrite !Rmult_1_l in H.
  apply (f_equal Rinv) in H. rewrite !Rinv_inv in H.
  apply exp_inv. lra.
Qed.

Lemma set_same_history (self : DiversityRewardModel) :
  set_historic_embeddings self (historic_embeddings self) = self.
Proof. destruct self. reflexivity. Qed.

Lemma append_all_runs (batches : list Tensor) :
  forall self : DiversityRewardModel,
    (0 < snd (history_range self))%nat ->
    Forall (fun embeddings => embeddings <> []) batches ->
    append_all batches self
    = (Return tt,
       set_historic_embeddings self
         (match batches with
          | [] => historic_embeddings self
          | _ => slice_last (snd (history_range self))
                   (historic_embeddings self ++ concat (map collapsed batches))
          end)).
Proof.
  induction batches as [|b rest IH]; intros self Hcap Hne.
  - simpl. unfold ret. rewrite set_same_history. reflexivity.
  - inversion Hne as [|? ? Hb Hrest]; subst.
    cbn [append_all]. unfold bind.
    rewrite (update_returns _ Hb).
    rewrite IH; [|exact Hcap | exact Hrest].
    f_equal. unfold set_historic_embeddings. cbn.
    f_equal.
    destruct rest as [|b' rest'].
    + simpl. rewrite app_nil_r. reflexivity.
    + rewrite slice_last_app by exact Hcap.
      rewrite <- app_assoc. reflexivity.
Qed.

Lemma slice_last_fits (A : Type) (n : nat) (t : list A) :
  (length t <= n)%nat -> slice_last n t = t.
Proof.
  intros H. unfold slice_last. destruct (Nat.eqb n 0); [reflexivity|].
  replace (length t - n)%nat with 0%nat by lia. reflexivity.
Qed.

Lemma collapsed_singletons (rows : list Vector) :
  concat (map collapsed (map (fun v => [v]) rows)) = rows.
Proof.
  induction rows as [|v rows IH]; [reflexivity|].
  cbn [map concat]. rewrite IH.
  unfold collapsed, unique. cbn [unique_loop].
  rewrite (proj2 (all_eq_spec v v) eq_refl). reflexivity.
Qed.

(** Rows appended one batch each all enter the history while it fits. *)
Lemma append_all_singletons (rows : list Vector) (self : DiversityRewardModel) :
  (length (historic_embeddings self) + length rows
   <= snd (history_range self))%nat ->
  append_all (map (fun v => [v]) rows) self
  = (Return tt,
     set_historic_embeddings self (historic_embeddings self ++ rows)).
Proof.
  intros Hfit. destruct rows as [|v rows].
  - simpl. unfold ret. rewrite app_nil_r, set_same_history. reflexivity.
  - rewrite append_all_runs.
    + pose proof (collapsed_singletons (v :: rows)) as E.
      cbn [map] in E |- *. rewrite E.
      rewrite slice_last_fits; [reflexivity|].
      rewrite length_app. exact Hfit.
    + simpl in Hfit. lia.
    + rewrite Forall_forall. intros b Hin.
      apply in_map_iff in Hin. destruct Hin as [w [<- _]]. discriminate.
Qed.

(** Both concrete histories arise from the model after [__init__] by
    appending their rows one batch each. *)
Lemma recent_tail_model_reachable :
  append_all (map (fun v => [v]) recent_tail_history) (init constant_encoder)
  = (Return tt, recent_tail_model).
Proof.
  rewrite append_all_singletons; [reflexivity|].
  apply Nat.leb_le. reflexivity.
Qed.

Lemma mixed_window_model_reachable :
  append_all (map (fun v => [v]) mixed_window_history) (init constant_encoder)
  = (Return tt, mixed_window_model).
Proof.
  rewrite append_all_singletons; [reflexivity|].
  apply Nat.leb_le. reflexivity.
Qed.

Lemma dissimilar_e1_e1 : 1 - Rabs (dot (unit_row e1) (unit_row e1)) = 0.
Proof. rewrite cosine_e1_e1, Rabs_R1. lra. Qed.

Lemma dissimilar_e1_e2 : 1 - Rabs (dot (unit_row e1) (unit_row e2)) = 1.
Proof. rewrite cosine_e1_e2, Rabs_R0. lra. Qed.

Lemma row_score_e1_against_e2_e2 (slope shift : R) :
  row_score slope shift 1 [e2; e2] e1 = 1 / (1 + exp (- slope * 1 + shift)).
Proof.
  unfold row_score, kth_smallest. cbn [map].
  rewrite dissimilar_e1_e2. cbn [sort_ascending insert_sorted].
  rewrite Rle_bool_true by lra. reflexivity.
Qed.

Lemma row_score_e1_against_e1_e1 (slope shift : R) :
  row_score slope shift 1 [e1; e1] e1 = 1 / (1 + exp (- slope * 0 + shift)).
Proof.
  unfold row_score, kth_smallest. cbn [map].
  rewrite dissimilar_e1_e1. cbn [sort_ascending insert_sorted].
  rewrite Rle_bool_true by lra. reflexivity.
Qed.

Lemma row_score_e1_against_e1_e2 (slope shift : R) (k : nat) :
  row_score slope shift k [e1; e2] e1
  = 1 / (1 + exp (- slope * nth (k - 1) [0; 1] 0 + shift)).
Proof.
  unfold row_score, kth_smallest. cbn [map].
  rewrite dissimilar_e1_e1, dissimilar_e1_e2.
  cbn [sort_ascending insert_sorted].
  rewrite Rle_bool_true by lra. reflexivity.
Qed.

Lemma recent_tail_window :
  skipn 500 recent_tail_history = [e2; e2].
Proof. reflexivity. Qed.

Lemma recent_tail_settled :
  settled_window recent_tail_model = [e1; e1].
Proof. reflexivity. Qed.

Lemma mixed_window :
  skipn 500 mixed_window_history = [e1; e2].
Proof. reflexivity. Qed.

(** ** The claims *)

(** C1, as stated, fails.  On a history of 500 copies of [e1] followed by
    two copies of [e2], the batch [[e1]] is scored against the two most
    recent entries: the window in use ends with the entry appended last,
    and the reward differs from the one the settled part of the history
    would give. *)
Lemma C1_recent_tail_is_scored :
  ~ scores_against_settled_history recent_tail_model [e1]
  /\ get_historic_rewards recent_tail_model [e1]
     = Return (Some [1 / (1 + exp (- (1000) * 1 + 50))])
  /\ last (slice_from (fst (history_range recent_tail_model))
             (historic_embeddings recent_tail_model)) []
     = last (historic_embeddings recent_tail_model) [].
Proof.
  assert (E : get_historic_rewards recent_tail_model [e1]
              = Return (Some [1 / (1 + exp (- (1000) * 1 + 50))])).
  { rewrite get_historic_rewards_present.
    - cbn [recent_tail_model set_historic_embeddings init history_range
             historic_embeddings history_reward_bottom_k fst length Nat.min].
      rewrite recent_tail_window. cbn [map].
      rewrite row_score_e1_against_e2_e2. reflexivity.
    - apply Nat.leb_le. reflexivity.
    - apply Nat.leb_le. reflexivity.
    - discriminate. }
  split; [|split; [exact E | reflexivity]].
  unfold scores_against_settled_history. rewrite E.
  rewrite recent_tail_settled.
  cbn [recent_tail_model set_historic_embeddings init
         history_reward_bottom_k length Nat.min map].
  rewrite row_score_e1_against_e1_e1.
  intros H. injection H as H. apply logistic_injective in H. lra.
Qed.

(** C1, amended: when the historic reward is present, row i of the batch is
    scored against the history with its first (oldest) [history_range[0]]
    entries left out.  That window is what remains of the history after
    those entries, so it runs to the end of the history and ends with the
    most recently appended entry. *)
Theorem C1_window_drops_oldest (self : DiversityRewardModel)
  (embeddings : Tensor) :
  (fst (history_range self) + history_reward_bottom_k self
   <= length (historic_embeddings self))%nat ->
  (1 <= history_reward_bottom_k self)%nat ->
  embeddings <> [] ->
  exists oldest window : Tensor,
    historic_embeddings self = oldest ++ window /\
    length oldest = fst (history_range self) /\
    window <> [] /\
    last window [] = last (historic_embeddings self) [] /\
    get_historic_rewards self embeddings
    = Return (Some (map (row_score 1000 50
                           (Nat.min (history_reward_bottom_k self)
                              (length embeddings))
                           window)
                      embeddings)).
Proof.
  intros Hsize Hk Hne.
  exists (firstn (fst (history_range self)) (historic_embeddings self)).
  exists (skipn (fst (history_range self)) (historic_embeddings self)).
  assert (Hw : skipn (fst (history_range self)) (historic_embeddings self)
               <> []).
  { intros E. apply (f_equal (@length Vector)) in E.
    rewrite length_skipn in E. simpl in E. lia. }
  split; [symmetry; apply firstn_skipn|].
  split; [rewrite length_firstn; lia|].
  split; [exact Hw|].
  split.
  - rewrite <- (firstn_skipn (fst (history_range self))
                  (historic_embeddings self)) at 2.
    symmetry. apply last_behind_prefix. exact Hw.
  - apply get_historic_rewards_present; assumption.
Qed.

Lemma C1_window_drops_oldest_witness :
  exists oldest window : Tensor,
    historic_embeddings recent_tail_model = oldest ++ window /\
    length oldest = fst (history_range recent_tail_model) /\
    window <> [] /\
    last window [] = last (historic_embeddings recent_tail_model) [] /\
    get_historic_rewards recent_tail_model [e1]
    = Return (Some (map (row_score 1000 50
                           (Nat.min
                              (history_reward_bottom_k recent_tail_model)
                              (length [e1]))
                           window)
                      [e1])).
Proof.
  apply (@C1_window_drops_oldest recent_tail_model [e1]).
  - apply Nat.leb_le. reflexivity.
  - apply Nat.leb_le. reflexivity.
  - discriminate.
Defined.

Lemma batch_rank_is_column_clamp (self : DiversityRewardModel)
  (embeddings : Tensor) :
  let similarity := pairwise_cosine_similarity embeddings embeddings in
  Forall (fun row =>
            Nat.min (reward_bottom_k self) (length similarity)
            = Nat.min (reward_bottom_k self) (length row))
    similarity.
Proof.
  intros similarity. unfold similarity. rewrite pairwise_rows.
  unfold pairwise_cosine_similarity. rewrite Forall_forall.
  intros row Hin. apply in_map_iff in Hin. destruct Hin as [xi [<- _]].
  rewrite length_map. reflexivity.
Qed.

(** C2, the code at a failing input.  With a history of 501 copies of [e1]
    followed by [e2], the batch [[e1]] gives a similarity matrix of one row
    and two columns, with dissimilarities 0 and 1.  The rank is clamped by
    the number of rows, [min 2 1 = 1], so the smallest dissimilarity 0 is
    scored; the rank clamped by the number of columns, [min 2 2 = 2],
    selects the dissimilarity 1, which gives another reward. *)
Theorem C2_historic_rank_follows_rows :
  let similarity :=
    pairwise_cosine_similarity [e1]
      (slice_from (fst (history_range mixed_window_model))
         (historic_embeddings mixed_window_model)) in
  length similarity = 1%nat
  /\ Forall (fun row => length row = 2%nat) similarity
  /\ get_historic_rewards mixed_window_model [e1]
     = Return (Some [1 / (1 + exp (- (1000) * 0 + 50))])
  /\ map (row_score 1000 50 (Nat.min 2 2)
            (skipn 500 (historic_embeddings mixed_window_model)))
       [e1]
     = [1 / (1 + exp (- (1000) * 1 + 50))]
  /\ 1 / (1 + exp (- (1000) * 0 + 50)) <> 1 / (1 + exp (- (1000) * 1 + 50)).
Proof.
  cbv zeta.
  split; [reflexivity|].
  split; [repeat constructor|].
  split; [|split].
  - rewrite get_historic_rewards_present.
    + cbn [mixed_window_model set_historic_embeddings init history_range
             historic_embeddings history_reward_bottom_k fst length Nat.min].
      rewrite mixed_window. cbn [map].
      rewrite row_score_e1_against_e1_e2. reflexivity.
    + apply Nat.leb_le. reflexivity.
    + apply Nat.leb_le. reflexivity.
    + discriminate.
  - cbn [mixed_window_model set_historic_embeddings historic_embeddings].
    rewrite mixed_window. cbn [map].
    rewrite row_score_e1_against_e1_e2. reflexivity.
  - intros H. apply logistic_injective in H. lra.
Qed.

Lemma nth_error_combine (A B : Type) (l1 : list A) (l2 : list B) (i : nat)
  (a : A) (b : B) :
  nth_error l1 i = Some a -> nth_error l2 i = Some b ->
  nth_error (combine l1 l2) i = Some (a, b).
Proof.
  revert l2 i; induction l1 as [|x l1 IH]; intros [|y l2] [|i] H1 H2;
    simpl in *; try discriminate.
  - congruence.
  - apply IH; assumption.
Qed.

Lemma nth_error_in_range (A : Type) (l : list A) (i : nat) :
  (i < length l)%nat -> exists a, nth_error l i = Some a.
Proof.
  intros H. destruct (nth_error l i) as [a|] eqn:E.
  - exists a. reflexivity.
  - apply nth_error_None in E. lia.
Qed.

(** C3: for a batch with at least one completion, [get_rewards] returns the
    events, and event i carries [batch = batch_rewards[i]]; without historic
    rewards its [reward] is [batch_rewards[i]] and [historic] is [None],
    with historic rewards its [reward] is the product
    [batch_rewards[i] * historic_rewards[i]] and [historic] is
    [historic_rewards[i]]. *)
Theorem C3_event_fields (self : DiversityRewardModel) (prompt name : string)
  (completions : list string) :
  completions <> [] ->
  length (sentence_encoder self completions) = length completions ->
  (1 <= reward_bottom_k self)%nat ->
  (1 <= history_reward_bottom_k self)%nat ->
  exists (batch_rewards : list R) (historic_rewards : option (list R))
         (reward_events : list DiversityRewardEvent)
         (self' : DiversityRewardModel),
    get_batch_rewards self (sentence_encoder self completions)
    = Return batch_rewards /\
    get_historic_rewards self (sentence_encoder self completions)
    = Return historic_rewards /\
    get_rewards prompt completions name self
    = (Return (RewardEvents reward_events), self') /\
    forall i : nat,
      (i < length completions)%nat ->
      exists (b : R) (ev : DiversityRewardEvent),
        nth_error batch_rewards i = Some b /\
        nth_error reward_events i = Some ev /\
        batch ev = Some b /\
        match historic_rewards with
        | None => reward ev = b /\ historic ev = None
        | Some hs =>
            exists h : R,
              nth_error hs i = Some h /\
              reward ev = b * h /\ historic ev = Some h
        end.
Proof.
  intros Hc Hlen Hkb Hkh.
  destruct (@get_rewards_total self prompt name completions Hc Hlen Hkb Hkh)
    as [Hb [Hh Hr]].
  cbv zeta in Hb, Hh, Hr.
  eexists; eexists; eexists; eexists.
  split; [exact Hb|]. split; [exact Hh|]. split; [exact Hr|].
  intros i Hi.
  set (embeddings := sentence_encoder self completions) in *.
  destruct (@nth_error_in_range _ embeddings i) as [e He]; [lia|].
  destruct (Nat.ltb (length (historic_embeddings self))
              (fst (history_range self) + history_reward_bottom_k self)).
  - eexists; eexists. cbn [events_of].
    rewrite !nth_error_map, He. cbn [option_map].
    repeat split; reflexivity.
  - eexists; eexists. cbn [events_of].
    split; [rewrite nth_error_map, He; reflexivity|].
    split.
    + rewrite nth_error_map.
      erewrite nth_error_combine;
        [reflexivity | rewrite nth_error_map, He; reflexivity
        | rewrite nth_error_map, He; reflexivity].
    + split; [reflexivity|].
      eexists. split; [rewrite nth_error_map, He; reflexivity|].
      split; reflexivity.
Qed.

Lemma C3_event_fields_witness :
  exists (reward_events : list DiversityRewardEvent)
         (self' : DiversityRewardModel),
    get_rewards "prompt" ["first"; "second"]%string "diversity"
      (init constant_encoder)
    = (Return (RewardEvents reward_events), self') /\
    exists (b : R) (ev : DiversityRewardEvent),
      nth_error reward_events 1 = Some ev /\
      batch ev = Some b /\ reward ev = b /\ historic ev = None.
Proof.
  destruct (@C3_event_fields (init constant_encoder) "prompt" "diversity"
              ["first"; "second"]%string)
    as [bs [ho [evs [self' [_ [Hh [Hr Hi]]]]]]].
  - discriminate.
  - reflexivity.
  - apply Nat.leb_le. reflexivity.
  - apply Nat.leb_le. reflexivity.
  - exists evs, self'. split; [exact Hr|].
    destruct (Hi 1%nat) as [b [ev [_ [He [Hb Hm]]]]]; [simpl; lia|].
    rewrite get_historic_rewards_absent in Hh
      by (apply Nat.ltb_lt; reflexivity).
    injection Hh as <-.
    exists b, ev. tauto.
Defined.

(** C4: [get_historic_rewards] returns [None] exactly when the history has
    fewer than [history_range[0] + history_reward_bottom_k] rows (500 + 2
    after [__init__]), and a tensor with one reward per embedding exactly
    when it has at least that many.  The events of [get_rewards] follow:
    with fewer rows every event has [historic = None], which is not a
    reward of zero, and a [reward] equal to its [batch]; with at least
    that many rows event i has [historic = historic_rewards[i]], so no
    event is without the component. *)
Theorem C4_historic_present_iff_enough_history (self : DiversityRewardModel)
  (prompt name : string) (completions : list string) :
  completions <> [] ->
  length (sentence_encoder self completions) = length completions ->
  (1 <= reward_bottom_k self)%nat ->
  (1 <= history_reward_bottom_k self)%nat ->
  let embeddings := sentence_encoder self completions in
  let threshold :=
    (fst (history_range self) + history_reward_bottom_k self)%nat in
  (get_historic_rewards self embeddings = Return None
   <-> (length (historic_embeddings self) < threshold)%nat) /\
  ((exists hs : list R,
       get_historic_rewards self embeddings = Return (Some hs) /\
       length hs = length completions)
   <-> (threshold <= length (historic_embeddings self))%nat) /\
  exists (reward_events : list DiversityRewardEvent)
         (self' : DiversityRewardModel),
    get_rewards prompt completions name self
    = (Return (RewardEvents reward_events), self') /\
    length reward_events = length completions /\
    ((length (historic_embeddings self) < threshold)%nat ->
     Forall (fun ev => historic ev = None /\ historic ev <> Some 0
                       /\ batch ev = Some (reward ev))
       reward_events) /\
    ((threshold <= length (historic_embeddings self))%nat ->
     exists hs : list R,
       get_historic_rewards self embeddings = Return (Some hs) /\
       Forall (fun ev => historic ev <> None) reward_events /\
       forall i : nat,
         (i < length completions)%nat ->
         exists (h : R) (ev : DiversityRewardEvent),
           nth_error hs i = Some h /\
           nth_error reward_events i = Some ev /\
           historic ev = Some h).
Proof.
  intros Hc Hlen Hkb Hkh embeddings threshold.
  destruct (@get_rewards_total self prompt name completions Hc Hlen Hkb Hkh)
    as [Hb [Hh Hr]].
  cbv zeta in Hb, Hh, Hr. fold embeddings in Hb, Hh, Hr.
  fold threshold in Hh, Hr.
  destruct (Nat.ltb_spec (length (historic_embeddings self)) threshold)
    as [Hlt|Hge].
  - split; [split; [intros _; exact Hlt | intros _; exact Hh]|].
    split.
    + split; [|lia]. intros [hs [E _]]. rewrite Hh in E. discriminate.
    + eexists; eexists. split; [exact Hr|].
      cbn [events_of]. split; [rewrite !length_map; exact Hlen|].
      split; [|lia]. intros _.
      rewrite Forall_forall. intros ev Hin.
      apply in_map_iff in Hin. destruct Hin as [b [<- _]].
      cbn. repeat split. discriminate.
  - split; [split; [intros E; rewrite Hh in E; discriminate | lia]|].
    split.
    + split; [intros _; exact Hge|]. intros _.
      eexists. split; [exact Hh|].
      rewrite length_map. exact Hlen.
    + eexists; eexists. split; [exact Hr|].
      cbn [events_of]. split.
      * rewrite length_map, length_combine, !length_map.
        unfold embeddings. rewrite Hlen. lia.
      * split; [lia|]. intros _.
        eexists. split; [exact Hh|]. split.
        { rewrite Forall_forall. intros ev Hin.
          apply in_map_iff in Hin. destruct Hin as [bh [<- _]].
          cbn. discriminate. }
        intros i Hi.
        destruct (@nth_error_in_range _ embeddings i) as [e He];
          [unfold embeddings; lia|].
        eexists; eexists.
        split; [rewrite nth_error_map, He; reflexivity|].
        split.
        { rewrite nth_error_map.
          erewrite nth_error_combine;
            [reflexivity | rewrite nth_error_map, He; reflexivity
            | rewrite nth_error_map, He; reflexivity]. }
        reflexivity.
Qed.

Lemma C4_historic_present_iff_enough_history_witness :
  (fst (history_range (init constant_encoder))
   + history_reward_bottom_k (init constant_encoder) = 502)%nat /\
  (get_historic_rewards (init constant_encoder) (constant_encoder ["only"%string])
   = Return None
   <-> (length (historic_embeddings (init constant_encoder)) < 502)%nat) /\
  exists (reward_events : list DiversityRewardEvent)
         (self' : DiversityRewardModel) (h : R) (ev : DiversityRewardEvent),
    get_rewards "prompt" ["only"%string] "diversity" recent_tail_model
    = (Return (RewardEvents reward_events), self') /\
    nth_error reward_events 0 = Some ev /\
    historic ev = Some h.
Proof.
  split; [reflexivity|]. split.
  - apply (@C4_historic_present_iff_enough_history (init constant_encoder)
             "prompt" "diversity" ["only"%string]).
    + discriminate.
    + reflexivity.
    + apply Nat.leb_le. reflexivity.
    + apply Nat.leb_le. reflexivity.
  - destruct (@C4_historic_present_iff_enough_history recent_tail_model
                "prompt" "diversity" ["only"%string])
      as [_ [_ [evs [self' [Hr [_ [_ Hpresent]]]]]]].
    + discriminate.
    + reflexivity.
    + apply Nat.leb_le. reflexivity.
    + apply Nat.leb_le. reflexivity.
    + destruct Hpresent as [hs [_ [_ Hi]]];
        [apply Nat.leb_le; reflexivity|].
      destruct (Hi 0%nat) as [h [ev [_ [Hev Hh]]]]; [simpl; lia|].
      exists evs, self', h, ev. repeat split; assumption.
Defined.

(** C5, the code on an empty list of completions: [get_rewards] returns the
    pair of an empty tensor and [None], which is not a list of events, and
    leaves [self] as it was, so no forward pass is logged and the history
    is unchanged. *)
Theorem C5_empty_completions_return_a_pair (self : DiversityRewardModel)
  (prompt name : string) :
  get_rewards prompt [] name self = (Return (TensorAndNone []), self)
  /\ TensorAndNone [] <> RewardEvents []
  /\ forward_passes (snd (get_rewards prompt [] name self))
     = forward_passes self
  /\ historic_embeddings (snd (get_rewards prompt [] name self))
     = historic_embeddings self.
Proof.
  repeat split. discriminate.
Qed.

(** C6: starting from a history within the capacity [history_range[1]]
    (15500 after [__init__]), any sequence of appends of batches with rows
    succeeds and leaves a history of at most that many rows.  The history
    left is the stream of all rows appended so far with a prefix removed:
    the oldest rows go first, the rest keep their order, and nothing is
    removed while the stream fits. *)
Theorem C6_history_bounded_fifo (self : DiversityRewardModel)
  (batches : list Tensor) :
  (0 < snd (history_range self))%nat ->
  (length (historic_embeddings self) <= snd (history_range self))%nat ->
  Forall (fun embeddings => embeddings <> []) batches ->
  let stream := historic_embeddings self ++ concat (map collapsed batches) in
  exists (self' : DiversityRewardModel) (dropped : Tensor),
    append_all batches self = (Return tt, self') /\
    history_range self' = history_range self /\
    (length (historic_embeddings self') <= snd (history_range self))%nat /\
    stream = dropped ++ historic_embeddings self' /\
    length dropped = (length stream - snd (history_range self))%nat.
Proof.
  intros Hcap Hfit Hne stream.
  assert (Hs : forall t : Tensor,
             t = firstn (length t - snd (history_range self)) t
                 ++ slice_last (snd (history_range self)) t).
  { intros t. destruct (slice_last_suffix (snd (history_range self)) t)
      as [E|E]; [exact E | lia]. }
  eexists. exists (firstn (length stream - snd (history_range self)) stream).
  split; [apply append_all_runs; assumption|].
  split; [reflexivity|].
  cbn [set_historic_embeddings historic_embeddings].
  destruct batches as [|b rest].
  - unfold stream. cbn [map concat]. rewrite app_nil_r.
    split; [exact Hfit|].
    replace (length (historic_embeddings self) - snd (history_range self))%nat
      with 0%nat by lia.
    split; reflexivity.
  - fold stream. split; [|split].
    + rewrite slice_last_length by exact Hcap. lia.
    + apply Hs.
    + rewrite length_firstn. lia.
Qed.

Lemma C6_history_bounded_fifo_witness :
  exists (self' : DiversityRewardModel) (dropped : Tensor),
    append_all [[e1; e1; e2]; [e2]] (init constant_encoder)
    = (Return tt, self') /\
    (length (historic_embeddings self') <= 15500)%nat /\
    [] ++ concat (map collapsed [[e1; e1; e2]; [e2]])
    = dropped ++ historic_embeddings self'.
Proof.
  destruct (@C6_history_bounded_fifo (init constant_encoder)
              [[e1; e1; e2]; [e2]])
    as [self' [dropped [Hrun [_ [Hlen [Hstream _]]]]]].
  - apply Nat.ltb_lt. reflexivity.
  - apply Nat.leb_le. reflexivity.
  - repeat constructor; discriminate.
  - exists self', dropped. repeat split; assumption.
Defined.

(** C7: a batch with rows is a sequence of runs of equal rows, each run
    starting with a row other than the one before it; [unique] returns the
    first row of each run, in order, and so always the first row of the
    batch; these rows are what the append concatenates onto the history.
    A batch of [n + 1] copies of one row contributes that row once, and
    the history grows by one row when it was below the capacity. *)
Theorem C7_unique_keeps_first_of_each_run (self : DiversityRewardModel)
  (embeddings : Tensor) :
  embeddings <> [] ->
  (exists runs : list (Vector * nat),
      proper_runs runs /\ embeddings = expand_runs runs) /\
  (forall runs : list (Vector * nat),
      proper_runs runs -> embeddings = expand_runs runs ->
      unique all_eq embeddings = Return (map fst runs) /\
      hd_error (map fst runs) = hd_error embeddings /\
      update_historic_embeddings embeddings self
      = (Return tt,
         set_historic_embeddings self
           (slice_last (snd (history_range self))
              (historic_embeddings self ++ map fst runs)))) /\
  (forall (v : Vector) (n : nat),
      embeddings = repeat v (S n) ->
      unique all_eq embeddings = Return [v] /\
      update_historic_embeddings embeddings self
      = (Return tt,
         set_historic_embeddings self
           (slice_last (snd (history_range self))
              (historic_embeddings self ++ [v]))) /\
      ((length (historic_embeddings self) < snd (history_range self))%nat ->
       length (historic_embeddings
                 (snd (update_historic_embeddings embeddings self)))
       = S (length (historic_embeddings self)))).
Proof.
  intros Hne. split; [|split].
  - apply (@runs_exist _ all_eq all_eq_spec). exact Hne.
  - intros runs Hp He.
    assert (Hu : unique all_eq embeddings = Return (map fst runs)).
    { rewrite He. apply (@unique_of_runs _ all_eq all_eq_spec). exact Hp. }
    split; [exact Hu|]. split.
    + rewrite He. destruct runs as [|[v n] rest]; [contradiction|].
      reflexivity.
    + unfold update_historic_embeddings. rewrite Hu. reflexivity.
  - intros v n He.
    assert (Hu : unique all_eq embeddings = Return [v]).
    { rewrite He. apply (@unique_of_copies _ all_eq all_eq_spec). }
    split; [exact Hu|].
    unfold update_historic_embeddings. rewrite Hu.
    split; [reflexivity|].
    intros Hroom. cbn [snd set_historic_embeddings historic_embeddings].
    rewrite slice_last_length by lia.
    rewrite length_app. simpl. lia.
Qed.

Lemma C7_unique_keeps_first_of_each_run_witness :
  unique all_eq [e1; e1; e1; e2; e2; e1] = Return [e1; e2; e1]
  /\ unique all_eq (repeat e1 4) = Return [e1].
Proof.
  split.
  - destruct (@C7_unique_keeps_first_of_each_run (init constant_encoder)
                [e1; e1; e1; e2; e2; e1])
      as [_ [Hruns _]]; [discriminate|].
    destruct (Hruns [(e1, 2%nat); (e2, 1%nat); (e1, 0%nat)]) as [Hu _].
    + simpl. repeat split.
      * intros E. symmetry in E. exact (e1_not_e2 E).
      * exact e1_not_e2.
    + reflexivity.
    + exact Hu.
  - destruct (@C7_unique_keeps_first_of_each_run (init constant_encoder)
                (repeat e1 4))
      as [_ [_ Hcopies]]; [discriminate|].
    destruct (Hcopies e1 3%nat) as [Hu _]; [reflexivity | exact Hu].
Defined.

(** C8: for a list of completions that is not empty, [get_rewards] returns
    as many events as there are completions, and event i is the one of
    embedding i: its [batch] is the batch score of row i of the embeddings
    and its [historic] is [None] or the historic score of that row. *)
Theorem C8_one_event_per_completion (self : DiversityRewardModel)
  (prompt name : string) (completions : list string) :
  completions <> [] ->
  length (sentence_encoder self completions) = length completions ->
  (1 <= reward_bottom_k self)%nat ->
  (1 <= history_reward_bottom_k self)%nat ->
  let embeddings := sentence_encoder self completions in
  exists (reward_events : list DiversityRewardEvent)
         (self' : DiversityRewardModel),
    get_rewards prompt completions name self
    = (Return (RewardEvents reward_events), self') /\
    length reward_events = length completions /\
    forall i : nat,
      (i < length completions)%nat ->
      exists (e : Vector) (ev : DiversityRewardEvent),
        nth_error embeddings i = Some e /\
        nth_error reward_events i = Some ev /\
        batch ev
        = Some (row_score 40 4
                  (Nat.min (reward_bottom_k self) (length embeddings))
                  embeddings e) /\
        historic ev
        = if Nat.ltb (length (historic_embeddings self))
               (fst (history_range self) + history_reward_bottom_k self)
          then None
          else Some (row_score 1000 50
                       (Nat.min (history_reward_bottom_k self)
                          (length embeddings))
                       (skipn (fst (history_range self))
                          (historic_embeddings self))
                       e).
Proof.
  intros Hc Hlen Hkb Hkh embeddings.
  destruct (@get_rewards_total self prompt name completions Hc Hlen Hkb Hkh)
    as [_ [_ Hr]].
  cbv zeta in Hr. fold embeddings in Hr.
  eexists; eexists. split; [exact Hr|].
  split.
  - rewrite events_of_length.
    + rewrite length_map. exact Hlen.
    + destruct (Nat.ltb _ _); [exact I|]. rewrite !length_map. reflexivity.
  - intros i Hi.
    destruct (@nth_error_in_range _ embeddings i) as [e He];
      [unfold embeddings; lia|].
    exists e.
    destruct (Nat.ltb (length (historic_embeddings self))
                (fst (history_range self) + history_reward_bottom_k self)).
    + eexists. cbn [events_of].
      split; [exact He|].
      split; [rewrite !nth_error_map, He; reflexivity|].
      split; reflexivity.
    + eexists. cbn [events_of].
      split; [exact He|].
      split.
      * rewrite nth_error_map.
        erewrite nth_error_combine;
          [reflexivity | rewrite nth_error_map, He; reflexivity
          | rewrite nth_error_map, He; reflexivity].
      * split; reflexivity.
Qed.

Lemma C8_one_event_per_completion_witness :
  exists (reward_events : list DiversityRewardEvent)
         (self' : DiversityRewardModel),
    get_rewards "prompt" ["first"; "second"; "third"]%string "diversity"
      (init constant_encoder)
    = (Return (RewardEvents reward_events), self') /\
    length reward_events = 3%nat.
Proof.
  destruct (@C8_one_event_per_completion (init constant_encoder)
              "prompt" "diversity" ["first"; "second"; "third"]%string)
    as [evs [self' [Hr [Hlen _]]]].
  - discriminate.
  - reflexivity.
  - apply Nat.leb_le. reflexivity.
  - apply Nat.leb_le. reflexivity.
  - exists evs, self'. split; assumption.
Defined.

(** C9: [normalize_rewards] keeps the number of rewards and maps a reward
    to 1 when it is strictly greater than [boundary] and to 0 otherwise;
    with the boundary 0.5, the rewards 0.3, 0.6, 0.5 become 0, 1, 0. *)
Theorem C9_normalize_rewards_strict_threshold (self : DiversityRewardModel)
  (raw_rewards : list R) :
  length (normalize_rewards self raw_rewards) = length raw_rewards /\
  (forall (i : nat) (r : R),
      nth_error raw_rewards i = Some r ->
      (r > boundary self ->
       nth_error (normalize_rewards self raw_rewards) i = Some 1) /\
      (r <= boundary self ->
       nth_error (normalize_rewards self raw_rewards) i = Some 0)) /\
  (boundary self = 0.5 ->
   normalize_rewards self [0.3; 0.6; 0.5] = [0; 1; 0]).
Proof.
  unfold normalize_rewards. split; [apply length_map|]. split.
  - intros i r Hi. rewrite nth_error_map, Hi. cbn [option_map].
    split; intros H.
    + rewrite Rgt_bool_true by exact H. reflexivity.
    + rewrite Rgt_bool_false by exact H. reflexivity.
  - intros ->. cbn [map].
    rewrite (Rgt_bool_false (x := 0.3)) by lra.
    rewrite (Rgt_bool_true (x := 0.6)) by lra.
    rewrite (Rgt_bool_false (x := 0.5)) by lra.
    reflexivity.
Qed.

Lemma C9_normalize_rewards_strict_threshold_witness :
  normalize_rewards (init constant_encoder) [0.3; 0.6; 0.5] = [0; 1; 0].
Proof.
  apply (proj2 (proj2 (C9_normalize_rewards_strict_threshold
                         (init constant_encoder) []))).
  reflexivity.
Defined.

(** C10: for a batch of one row of Euclidean norm 1, the similarity matrix
    is the single entry 1, its dissimilarity is 0, the rank is clamped to
    1, and the batch reward is [1 / (1 + exp 4)] whatever the row. *)
Theorem C10_single_unit_row_batch_reward (self : DiversityRewardModel)
  (v : Vector) :
  dot v v = 1 ->
  (1 <= reward_bottom_k self)%nat ->
  pairwise_cosine_similarity [v] [v] = [[1]] /\
  dissimilarity [[1]] = [[0]] /\
  Nat.min (reward_bottom_k self)
    (length (pairwise_cosine_similarity [v] [v])) = 1%nat /\
  get_batch_rewards self [v] = Return [1 / (1 + exp 4)].
Proof.
  intros Hv Hk.
  assert (Hs : pairwise_cosine_similarity [v] [v] = [[1]]).
  { unfold pairwise_cosine_similarity. cbn [map].
    rewrite (unit_row_of_unit v Hv), Hv. reflexivity. }
  assert (Hd : dissimilarity [[1]] = [[0]]).
  { unfold dissimilarity. cbn [map]. rewrite Rabs_R1.
    replace (1 - 1) with 0 by lra. reflexivity. }
  assert (Hm : Nat.min (reward_bottom_k self) 1 = 1%nat) by lia.
  split; [exact Hs|]. split; [exact Hd|].
  split; [rewrite Hs; exact Hm|].
  unfold get_batch_rewards. rewrite Hs, Hd. cbn [length]. rewrite Hm.
  cbn. replace (-40 * 0 + 4) with 4 by lra. reflexivity.
Qed.

Lemma C10_single_unit_row_batch_reward_witness :
  get_batch_rewards (init constant_encoder) [[3 / 5; 4 / 5]]
  = Return [1 / (1 + exp 4)].
Proof.
  apply (@C10_single_unit_row_batch_reward (init constant_encoder)
           [3 / 5; 4 / 5]).
  - unfold dot. cbn. lra.
  - apply Nat.leb_le. reflexivity.
Defined.

(** ** Further facts about [unique] and the history *)

Section RunFacts.
Variable A : Type.
Variable eqb : A -> A -> bool.
Hypothesis eqb_spec : forall x y, eqb x y = true <-> x = y.

Lemma unique_loop_run_heads (l : list A) :
  forall (previous : A) (acc : list A),
    unique_loop eqb l previous acc = acc ++ run_heads eqb previous l.
Proof.
  induction l as [|x t IH]; intros previous acc; simpl.
  - rewrite app_nil_r. reflexivity.
  - rewrite IH. destruct (eqb x previous); simpl; [reflexivity|].
    rewrite <- app_assoc. reflexivity.
Qed.

Lemma unique_run_heads (first : A) (rest : list A) :
  unique eqb (first :: rest) = Return (first :: run_heads eqb first rest).
Proof.
  unfold unique. rewrite unique_loop_run_heads. simpl.
  rewrite (proj2 (eqb_spec first first) eq_refl). reflexivity.
Qed.

Lemma run_heads_distinct (l : list A) :
  forall previous : A, adjacent_distinct (previous :: run_heads eqb previous l).
Proof.
  induction l as [|x t IH]; intros previous; [simpl; tauto|].
  cbn [run_heads]. destruct (eqb x previous) eqn:E.
  - apply eqb_spec in E. subst x. apply IH.
  - split; [|apply IH].
    intros H. subst x. rewrite (proj2 (eqb_spec previous previous) eq_refl) in E.
    discriminate.
Qed.

Lemma run_heads_fixed (l : list A) :
  forall previous : A,
    adjacent_distinct (previous :: l) -> run_heads eqb previous l = l.
Proof.
  induction l as [|x t IH]; intros previous H; [reflexivity|].
  destruct H as [Hne Ht]. cbn [run_heads].
  destruct (eqb x previous) eqn:E.
  - apply eqb_spec in E. subst x. contradiction.
  - f_equal. apply IH. exact Ht.
Qed.

Lemma run_heads_in (l : list A) :
  forall (previous x : A), In x (run_heads eqb previous l) -> In x l.
Proof.
  induction l as [|y t IH]; intros previous x H; simpl in *; [contradiction|].
  destruct (eqb y previous).
  - right. apply (IH _ _ H).
  - destruct H as [H|H]; [left; exact H | right; apply (IH _ _ H)].
Qed.

Lemma run_heads_covers (l : list A) :
  forall (previous x : A),
    In x l -> x = previous \/ In x (run_heads eqb previous l).
Proof.
  induction l as [|y t IH]; intros previous x H; simpl in *; [contradiction|].
  destruct H as [H|H].
  - subst y. destruct (eqb x previous) eqn:E.
    + left. apply eqb_spec. exact E.
    + right. left. reflexivity.
  - destruct (IH y x H) as [Hx|Hx].
    + subst y. destruct (eqb x previous) eqn:E.
      * left. apply eqb_spec. exact E.
      * right. left. reflexivity.
    + destruct (eqb y previous); [right; exact Hx | right; right; exact Hx].
Qed.

Lemma run_heads_length (l : list A) :
  forall previous : A, (length (run_heads eqb previous l) <= length l)%nat.
Proof.
  induction l as [|x t IH]; intros previous; simpl; [lia|].
  destruct (eqb x previous); simpl; specialize (IH x); lia.
Qed.

Lemma run_heads_last (l : list A) :
  forall (previous d : A),
    last (previous :: run_heads eqb previous l) d = last (previous :: l) d.
Proof.
  induction l as [|x t IH]; intros previous d; [reflexivity|].
  cbn [run_heads]. destruct (eqb x previous) eqn:E.
  - apply eqb_spec in E. subst x.
    rewrite IH. reflexivity.
  - change (last (previous :: x :: run_heads eqb x t) d)
      with (last (x :: run_heads eqb x t) d).
    rewrite IH. reflexivity.
Qed.
End RunFacts.

Lemma collapsed_cons (first : Vector) (rest : Tensor) :
  collapsed (first :: rest) = first :: run_heads all_eq first rest.
Proof.
  unfold collapsed. rewrite (@unique_run_heads _ all_eq all_eq_spec).
  reflexivity.
Qed.

Lemma collapsed_length (embeddings : Tensor) :
  embeddings <> [] ->
  (1 <= length (collapsed embeddings) <= length embeddings)%nat.
Proof.
  destruct embeddings as [|first rest]; [contradiction|]. intros _.
  rewrite collapsed_cons. simpl.
  pose proof (run_heads_length all_eq rest first). lia.
Qed.

Lemma update_history_length (self : DiversityRewardModel)
  (embeddings : Tensor) :
  (0 < snd (history_range self))%nat ->
  embeddings <> [] ->
  length (historic_embeddings
            (snd (update_historic_embeddings embeddings self)))
  = Nat.min (snd (history_range self))
      (length (historic_embeddings self) + length (collapsed embeddings)).
Proof.
  intros Hcap Hne. rewrite (update_returns self Hne).
  cbn [snd set_historic_embeddings historic_embeddings].
  rewrite slice_last_length by exact Hcap. rewrite length_app. reflexivity.
Qed.

Lemma get_historic_rewards_none_iff (self : DiversityRewardModel)
  (embeddings : Tensor) :
  get_historic_rewards self embeddings = Return None
  <-> (length (historic_embeddings self)
       < fst (history_range self) + history_reward_bottom_k self)%nat.
Proof.
  split; [|apply get_historic_rewards_absent].
  unfold get_historic_rewards.
  destruct (Nat.ltb_spec (length (historic_embeddings self))
              (fst (history_range self) + history_reward_bottom_k self))
    as [H|H]; [intros _; exact H|].
  destruct (topk_last_column _ _ _ _); simpl; discriminate.
Qed.

Lemma append_all_app (before after : list Tensor) (self : DiversityRewardModel) :
  append_all (before ++ after) self
  = match append_all before self with
    | (Return _, self') => append_all after self'
    | (Raise e, self') => (Raise e, self')
    end.
Proof.
  revert self. induction before as [|b before IH]; intros self.
  - reflexivity.
  - cbn [app append_all]. unfold bind.
    destruct (update_historic_embeddings b self) as [[u|e] self1];
      [apply IH | reflexivity].
Qed.

(** ** Further properties of the code *)

(** X1: on a batch with rows, [unique] returns rows no two neighbours of
    which are equal, and exactly the rows that occur in the batch. *)
Theorem X1_unique_no_equal_neighbours (embeddings : Tensor) :
  embeddings <> [] ->
  exists embeddings_unique : Tensor,
    unique all_eq embeddings = Return embeddings_unique /\
    adjacent_distinct embeddings_unique /\
    (forall row, In row embeddings_unique <-> In row embeddings) /\
    (1 <= length embeddings_unique <= length embeddings)%nat.
Proof.
  intros Hne. destruct embeddings as [|first rest]; [contradiction|].
  exists (first :: run_heads all_eq first rest).
  split; [apply (@unique_run_heads _ all_eq all_eq_spec)|].
  split; [apply (@run_heads_distinct _ all_eq all_eq_spec)|].
  split.
  - intros row. split; intros [H|H].
    + left. exact H.
    + right. apply (run_heads_in _ _ _ _ H).
    + left. exact H.
    + destruct (@run_heads_covers _ all_eq all_eq_spec rest first row H)
        as [Hx|Hx]; [left; symmetry; exact Hx | right; exact Hx].
  - pose proof (run_heads_length all_eq rest first). simpl. lia.
Qed.

Lemma X1_unique_no_equal_neighbours_witness :
  exists embeddings_unique : Tensor,
    unique all_eq [e1; e1; e2; e1; e1] = Return embeddings_unique /\
    adjacent_distinct embeddings_unique.
Proof.
  destruct (@X1_unique_no_equal_neighbours [e1; e1; e2; e1; e1])
    as [u [Hu [Hd _]]]; [discriminate|].
  exists u. split; assumption.
Defined.

(** X2: [unique] applied to its own result returns it unchanged, and it
    returns the batch itself exactly when no two neighbouring rows of the
    batch are equal. *)
Theorem X2_unique_idempotent (embeddings : Tensor) :
  embeddings <> [] ->
  exists embeddings_unique : Tensor,
    unique all_eq embeddings = Return embeddings_unique /\
    unique all_eq embeddings_unique = Return embeddings_unique /\
    (adjacent_distinct embeddings <-> embeddings_unique = embeddings).
Proof.
  intros Hne. destruct embeddings as [|first rest]; [contradiction|].
  exists (first :: run_heads all_eq first rest).
  pose proof (@run_heads_distinct _ all_eq all_eq_spec rest first) as Hd.
  split; [apply (@unique_run_heads _ all_eq all_eq_spec)|].
  split.
  - rewrite (@unique_run_heads _ all_eq all_eq_spec).
    rewrite (@run_heads_fixed _ all_eq all_eq_spec _ _ Hd). reflexivity.
  - split; intros H.
    + rewrite (@run_heads_fixed _ all_eq all_eq_spec _ _ H). reflexivity.
    + rewrite <- H. exact Hd.
Qed.

Lemma X2_unique_idempotent_witness :
  exists embeddings_unique : Tensor,
    unique all_eq [e1; e1; e2] = Return embeddings_unique /\
    unique all_eq embeddings_unique = Return embeddings_unique.
Proof.
  destruct (@X2_unique_idempotent [e1; e1; e2]) as [u [Hu [Hi _]]];
    [discriminate|].
  exists u. split; assumption.
Defined.

(** X3: a batch without rows stops a sequence of appends with IndexError:
    the batches before it have been appended, the batches after it have
    not. *)
Theorem X3_empty_batch_aborts_appends (self : DiversityRewardModel)
  (before after : list Tensor) :
  (0 < snd (history_range self))%nat ->
  Forall (fun embeddings => embeddings <> []) before ->
  exists self' : DiversityRewardModel,
    append_all before self = (Return tt, self') /\
    append_all (before ++ [] :: after) self = (Raise IndexError, self').
Proof.
  intros Hcap Hne. eexists.
  split; [apply append_all_runs; assumption|].
  rewrite append_all_app, append_all_runs by assumption.
  reflexivity.
Qed.

Lemma X3_empty_batch_aborts_appends_witness :
  exists self' : DiversityRewardModel,
    append_all [[e1]] (init constant_encoder) = (Return tt, self') /\
    append_all [[e1]; []; [e2]] (init constant_encoder)
    = (Raise IndexError, self') /\
    historic_embeddings self' = [e1].
Proof.
  destruct (@X3_empty_batch_aborts_appends (init constant_encoder)
              [[e1]] [[e2]])
    as [self' [Hb Ha]].
  - apply Nat.ltb_lt. reflexivity.
  - repeat constructor. discriminate.
  - exists self'. split; [exact Hb|]. split; [exact Ha|].
    rewrite append_all_runs in Hb.
    + injection Hb as <-.
      cbn [historic_embeddings set_historic_embeddings map concat].
      rewrite collapsed_cons. reflexivity.
    + apply Nat.ltb_lt. reflexivity.
    + repeat constructor. discriminate.
Defined.

(** X4: whatever the input and whether it returns or raises,
    [get_rewards] leaves the encoder, both ranks, [history_range] and
    [boundary] of the model as they were. *)
Theorem X4_get_rewards_keeps_configuration (self : DiversityRewardModel)
  (prompt name : string) (completions : list string) :
  let self' := snd (get_rewards prompt completions name self) in
  sentence_encoder self' = sentence_encoder self /\
  reward_bottom_k self' = reward_bottom_k self /\
  history_reward_bottom_k self' = history_reward_bottom_k self /\
  history_range self' = history_range self /\
  boundary self' = boundary self.
Proof.
  unfold get_rewards. destruct completions as [|c cs]; [cbn; tauto|].
  cbn [length Nat.eqb]. unfold bind, get_embeddings, reading.
  destruct (get_batch_rewards _ _); [|cbn; tauto].
  destruct (get_historic_rewards _ _); [|cbn; tauto].
  unfold update_historic_embeddings.
  destruct (unique all_eq _); cbn; tauto.
Qed.

Lemma adjacent_distinct_suffix (A : Type) (prefix l : list A) :
  adjacent_distinct (prefix ++ l) -> adjacent_distinct l.
Proof.
  induction prefix as [|x p IH]; [tauto|].
  cbn [app adjacent_distinct]. intros [_ H]. apply IH. exact H.
Qed.

Lemma last_skipn (A : Type) (d : A) (n : nat) (l : list A) :
  (n < length l)%nat -> last (skipn n l) d = last l d.
Proof.
  intros H. rewrite <- (firstn_skipn n l) at 2.
  symmetry. apply last_behind_prefix.
  intros E. apply (f_equal (@length A)) in E.
  rewrite length_skipn in E. simpl in E. lia.
Qed.

(** X5: equal rows are only collapsed inside one batch.  Appending the
    one-row batch [[v]] twice to a history with room for both leaves two
    equal neighbouring rows at the end of the history. *)
Theorem X5_duplicates_across_batches_stay (self : DiversityRewardModel)
  (v : Vector) :
  (length (historic_embeddings self) + 2 <= snd (history_range self))%nat ->
  append_all [[v]; [v]] self
  = (Return tt,
     set_historic_embeddings self (historic_embeddings self ++ [v; v]))
  /\ ~ adjacent_distinct (historic_embeddings self ++ [v; v]).
Proof.
  intros Hroom. split.
  - apply (append_all_singletons [v; v]). simpl. lia.
  - intros H. apply adjacent_distinct_suffix in H.
    destruct H as [H _]. apply H. reflexivity.
Qed.

Lemma X5_duplicates_across_batches_stay_witness :
  append_all [[e2]; [e2]] recent_tail_model
  = (Return tt,
     set_historic_embeddings recent_tail_model
       (historic_embeddings recent_tail_model ++ [e2; e2])).
Proof.
  apply (@X5_duplicates_across_batches_stay recent_tail_model e2).
  apply Nat.leb_le. reflexivity.
Defined.

(** X6: with a positive capacity, an append of a batch with rows leaves
    [min capacity (rows before + rows kept of the batch)] rows, where at
    least one and at most all rows of the batch are kept; a history within
    the capacity therefore never gets shorter. *)
Theorem X6_history_length_after_append (self : DiversityRewardModel)
  (embeddings : Tensor) :
  (0 < snd (history_range self))%nat ->
  embeddings <> [] ->
  let self' := snd (update_historic_embeddings embeddings self) in
  length (historic_embeddings self')
  = Nat.min (snd (history_range self))
      (length (historic_embeddings self) + length (collapsed embeddings)) /\
  (1 <= length (collapsed embeddings) <= length embeddings)%nat /\
  ((length (historic_embeddings self) <= snd (history_range self))%nat ->
   (length (historic_embeddings self)
    <= length (historic_embeddings self'))%nat).
Proof.
  intros Hcap Hne self'. unfold self'.
  rewrite (update_history_length self Hcap Hne).
  pose proof (collapsed_length Hne) as Hc.
  split; [reflexivity|]. split; [exact Hc|]. lia.
Qed.

Lemma X6_history_length_after_append_witness :
  length (historic_embeddings
            (snd (update_historic_embeddings [e1; e1; e2]
                    (init constant_encoder))))
  = Nat.min 15500 (0 + length (collapsed [e1; e1; e2])).
Proof.
  apply (@X6_history_length_after_append (init constant_encoder)
           [e1; e1; e2]).
  - apply Nat.ltb_lt. reflexivity.
  - discriminate.
Defined.

(** X7: once the history is long enough for historic rewards, and the
    capacity is at least that threshold, it stays long enough after every
    append: [get_historic_rewards] does not go back to [None]. *)
Theorem X7_historic_rewards_stay_available (self : DiversityRewardModel)
  (embeddings scored scored' : Tensor) :
  (fst (history_range self) + history_reward_bottom_k self
   <= snd (history_range self))%nat ->
  (0 < snd (history_range self))%nat ->
  embeddings <> [] ->
  get_historic_rewards self scored <> Return None ->
  get_historic_rewards (snd (update_historic_embeddings embeddings self))
    scored' <> Return None.
Proof.
  intros Hthr Hcap Hne Hbefore Hafter.
  apply get_historic_rewards_none_iff in Hafter.
  apply Hbefore. apply get_historic_rewards_none_iff.
  rewrite (update_history_length self Hcap Hne) in Hafter.
  rewrite (update_returns self Hne) in Hafter.
  cbn [snd set_historic_embeddings history_range history_reward_bottom_k]
    in Hafter.
  lia.
Qed.

Lemma X7_historic_rewards_stay_available_witness :
  get_historic_rewards
    (snd (update_historic_embeddings [e1; e2] recent_tail_model)) [e2]
  <> Return None.
Proof.
  apply (@X7_historic_rewards_stay_available recent_tail_model
           [e1; e2] [e1] [e2]).
  - apply Nat.leb_le. reflexivity.
  - apply Nat.ltb_lt. reflexivity.
  - discriminate.
  - intros H. apply get_historic_rewards_none_iff in H.
    apply Nat.ltb_lt in H. discriminate.
Defined.

(** X8: with a positive capacity, the last row of an appended batch is the
    last row of the history afterwards. *)
Theorem X8_newest_row_is_kept (self : DiversityRewardModel)
  (embeddings : Tensor) :
  (0 < snd (history_range self))%nat ->
  embeddings <> [] ->
  last (historic_embeddings
          (snd (update_historic_embeddings embeddings self))) []
  = last embeddings [].
Proof.
  intros Hcap Hne. rewrite (update_returns self Hne).
  cbn [snd set_historic_embeddings historic_embeddings].
  pose proof (collapsed_length Hne) as Hc.
  assert (Hl : last (historic_embeddings self ++ collapsed embeddings) []
               = last embeddings []).
  { rewrite last_behind_prefix.
    - destruct embeddings as [|first rest]; [contradiction|].
      rewrite collapsed_cons.
      apply (@run_heads_last _ all_eq all_eq_spec).
    - intros E. rewrite E in Hc. simpl in Hc. lia. }
  rewrite <- Hl. unfold slice_last.
  destruct (Nat.eqb_spec (snd (history_range self)) 0); [lia|].
  apply last_skipn. rewrite length_app. lia.
Qed.

Lemma X8_newest_row_is_kept_witness :
  last (historic_embeddings
          (snd (update_historic_embeddings [e1; e2; e2] recent_tail_model)))
    []
  = e2.
Proof.
  apply (@X8_newest_row_is_kept recent_tail_model [e1; e2; e2]).
  - apply Nat.ltb_lt. reflexivity.
  - discriminate.
Defined.

(** X9: a capacity of 0 does not empty the history: the slice [[-0:]]
    keeps every row, so each append of a batch with rows makes the history
    longer and nothing is ever dropped. *)
Theorem X9_zero_capacity_keeps_everything (self : DiversityRewardModel)
  (embeddings : Tensor) :
  snd (history_range self) = 0%nat ->
  embeddings <> [] ->
  let self' := snd (update_historic_embeddings embeddings self) in
  historic_embeddings self'
  = historic_embeddings self ++ collapsed embeddings /\
  (length (historic_embeddings self)
   < length (historic_embeddings self'))%nat.
Proof.
  intros Hzero Hne self'. unfold self'.
  rewrite (update_returns self Hne).
  cbn [snd set_historic_embeddings historic_embeddings].
  rewrite Hzero. unfold slice_last. cbn [Nat.eqb].
  split; [reflexivity|].
  pose proof (collapsed_length Hne). rewrite length_app. lia.
Qed.

Lemma X9_zero_capacity_keeps_everything_witness :
  let self := {| sentence_encoder := constant_encoder;
                 reward_bottom_k := 2;
                 history_reward_bottom_k := 2;
                 historic_embeddings := [e1; e2];
                 history_range := (500%nat, 0%nat);
                 boundary := 0.5;
                 forward_passes := [] |} in
  historic_embeddings (snd (update_historic_embeddings [e2; e2; e1] self))
  = [e1; e2] ++ collapsed [e2; e2; e1].
Proof.
  intros self.
  apply (@X9_zero_capacity_keeps_everything self [e2; e2; e1]).
  - reflexivity.
  - discriminate.
Defined.

(** ** Facts about the logistic regularisers *)

Lemma logistic_between (x : R) : 0 < 1 / (1 + exp x) < 1.
Proof.
  pose proof (exp_pos x) as He.
  assert (Hp : 0 < 1 + exp x) by lra.
  split.
  - apply Rdiv_lt_0_compat; lra.
  - apply (Rmult_lt_reg_r (1 + exp x)); [exact Hp|].
    unfold Rdiv. rewrite Rmult_assoc, Rinv_l by lra. lra.
Qed.

Lemma logistic_decreasing (x y : R) :
  x <= y -> 1 / (1 + exp y) <= 1 / (1 + exp x).
Proof.
  intros H. pose proof (exp_pos x). pose proof (exp_pos y).
  assert (He : exp x <= exp y).
  { destruct H as [H|H]; [left; apply exp_increasing; exact H|].
    subst. lra. }
  unfold Rdiv. rewrite !Rmult_1_l.
  apply Rinv_le_contravar; lra.
Qed.

Lemma logistic_above_half (x : R) : 1 / (1 + exp x) > 1 / 2 <-> x < 0.
Proof.
  pose proof (exp_pos x) as He.
  split; intros H.
  - apply exp_lt_inv. rewrite exp_0.
    destruct (Rlt_le_dec (exp x) 1) as [Hl|Hg]; [exact Hl|].
    exfalso.
    assert (1 / (1 + exp x) <= 1 / 2).
    { unfold Rdiv. rewrite !Rmult_1_l. apply Rinv_le_contravar; lra. }
    lra.
  - apply exp_increasing in H. rewrite exp_0 in H.
    unfold Rdiv. rewrite !Rmult_1_l.
    apply Rinv_lt_contravar; [|lra].
    apply Rmult_lt_0_compat; lra.
Qed.

Lemma row_score_between (slope shift : R) (k : nat) (against : Tensor)
  (e : Vector) :
  0 < row_score slope shift k against e < 1.
Proof. unfold row_score. apply logistic_between. Qed.

Lemma topk_last_column_length (A : Type) (leb : A -> A -> bool) (d : A)
  (k : nat) (m : list (list A)) (r : list A) :
  topk_last_column leb d k m = Return r -> length r = length m.
Proof.
  unfold topk_last_column.
  destruct (existsb _ m); [discriminate|].
  destruct (Nat.eqb k 0); [discriminate|].
  intros H. injection H as <-. apply length_map.
Qed.

Lemma topk_last_column_rank_zero (A : Type) (leb : A -> A -> bool) (d : A)
  (m : list (list A)) :
  topk_last_column leb d 0 m = Raise IndexError.
Proof.
  unfold topk_last_column.
  assert (E : existsb (fun row => Nat.ltb (length row) 0) m = false).
  { induction m as [|row m IH]; [reflexivity|]. simpl. exact IH. }
  rewrite E. reflexivity.
Qed.

(** X10: [get_batch_rewards] raises IndexError when the batch has no rows
    or the rank [reward_bottom_k] is 0, and in every other case returns one
    reward per row of the batch; it never raises RuntimeError.  For a
    batch whose rows all have a norm other than 0 the rewards lie between
    0 and 1, both included. *)
Theorem X10_batch_rewards_outcomes (self : DiversityRewardModel)
  (embeddings : Tensor) :
  (embeddings = [] \/ reward_bottom_k self = 0%nat ->
   get_batch_rewards self embeddings = Raise IndexError) /\
  (embeddings <> [] -> (1 <= reward_bottom_k self)%nat ->
   exists rewards : list R,
     get_batch_rewards self embeddings = Return rewards /\
     length rewards = length embeddings /\
     (Forall (fun e => 0 < dot e e) embeddings ->
      Forall (fun r => 0 <= r <= 1) rewards)).
Proof.
  split.
  - intros H. unfold get_batch_rewards.
    replace (Nat.min (reward_bottom_k self)
               (length (pairwise_cosine_similarity embeddings embeddings)))
      with 0%nat.
    + rewrite topk_last_column_rank_zero. reflexivity.
    + rewrite pairwise_rows. destruct H as [-> | ->]; simpl; lia.
  - intros Hne Hk. eexists.
    split; [apply get_batch_rewards_returns; assumption|].
    split; [apply length_map|].
    intros _. rewrite Forall_forall. intros r Hin.
    apply in_map_iff in Hin. destruct Hin as [e [<- _]].
    pose proof (row_score_between 40 4
                  (Nat.min (reward_bottom_k self) (length embeddings))
                  embeddings e).
    lra.
Qed.

Lemma X10_batch_rewards_outcomes_witness :
  get_batch_rewards (init constant_encoder) [] = Raise IndexError /\
  exists rewards : list R,
    get_batch_rewards (init constant_encoder) [e1; e2] = Return rewards /\
    length rewards = 2%nat /\
    Forall (fun r => 0 <= r <= 1) rewards.
Proof.
  split.
  - apply (proj1 (X10_batch_rewards_outcomes (init constant_encoder) [])).
    left. reflexivity.
  - destruct (proj2 (X10_batch_rewards_outcomes (init constant_encoder)
                      [e1; e2]))
      as [rewards [Hr [Hl Hb]]].
    + discriminate.
    + apply Nat.leb_le. reflexivity.
    + exists rewards. split; [exact Hr|]. split; [exact Hl|].
      apply Hb. repeat constructor; unfold dot, e1, e2; simpl; lra.
Defined.

(** X11: [get_historic_rewards] has three outcomes.  With a history
    shorter than [history_range[0] + history_reward_bottom_k] it returns
    [None], even for a batch without rows.  Otherwise, on a history with
    rows, it raises IndexError when the batch has no rows or the rank is
    0, and else returns one reward per row of the batch.  The history
    window is then never narrower than the rank, so RuntimeError is not
    raised.  When the rows of the batch and of the window all have a norm
    other than 0, the rewards lie between 0 and 1, both included. *)
Theorem X11_historic_rewards_outcomes (self : DiversityRewardModel)
  (embeddings : Tensor) :
  let threshold :=
    (fst (history_range self) + history_reward_bottom_k self)%nat in
  ((length (historic_embeddings self) < threshold)%nat ->
   get_historic_rewards self embeddings = Return None) /\
  ((threshold <= length (historic_embeddings self))%nat ->
   historic_embeddings self <> [] ->
   embeddings = [] \/ history_reward_bottom_k self = 0%nat ->
   get_historic_rewards self embeddings = Raise IndexError) /\
  ((threshold <= length (historic_embeddings self))%nat ->
   embeddings <> [] -> (1 <= history_reward_bottom_k self)%nat ->
   exists rewards : list R,
     get_historic_rewards self embeddings = Return (Some rewards) /\
     length rewards = length embeddings /\
     (Forall (fun e => 0 < dot e e) embeddings ->
      Forall (fun h => 0 < dot h h)
        (slice_from (fst (history_range self)) (historic_embeddings self)) ->
      Forall (fun r => 0 <= r <= 1) rewards)).
Proof.
  intros threshold. split; [apply get_historic_rewards_absent|]. split.
  - intros Hsize _ H. unfold get_historic_rewards.
    apply Nat.ltb_ge in Hsize. fold threshold. rewrite Hsize.
    replace (Nat.min (history_reward_bottom_k self)
               (length (pairwise_cosine_similarity embeddings
                          (slice_from (fst (history_range self))
                             (historic_embeddings self)))))
      with 0%nat.
    + rewrite topk_last_column_rank_zero. reflexivity.
    + rewrite pairwise_rows. destruct H as [-> | ->]; simpl; lia.
  - intros Hsize Hne Hk. eexists.
    split; [apply get_historic_rewards_present; assumption|].
    split; [apply length_map|].
    intros _ _. rewrite Forall_forall. intros r Hin.
    apply in_map_iff in Hin. destruct Hin as [e [<- _]].
    pose proof (row_score_between 1000 50
                  (Nat.min (history_reward_bottom_k self) (length embeddings))
                  (skipn (fst (history_range self))
                     (historic_embeddings self)) e).
    lra.
Qed.

Lemma X11_historic_rewards_outcomes_witness :
  get_historic_rewards (init constant_encoder) [] = Return None /\
  get_historic_rewards recent_tail_model [] = Raise IndexError /\
  exists rewards : list R,
    get_historic_rewards recent_tail_model [e1; e2] = Return (Some rewards) /\
    length rewards = 2%nat /\
    Forall (fun r => 0 <= r <= 1) rewards.
Proof.
  split; [|split].
  - apply (proj1 (X11_historic_rewards_outcomes (init constant_encoder) [])).
    apply Nat.ltb_lt. reflexivity.
  - apply (proj1 (proj2 (X11_historic_rewards_outcomes recent_tail_model []))).
    + apply Nat.leb_le. reflexivity.
    + discriminate.
    + left. reflexivity.
  - destruct (proj2 (proj2 (X11_historic_rewards_outcomes recent_tail_model
                              [e1; e2])))
      as [rewards [Hr [Hl Hb]]].
    + apply Nat.leb_le. reflexivity.
    + discriminate.
    + apply Nat.leb_le. reflexivity.
    + exists rewards. split; [exact Hr|]. split; [exact Hl|].
      apply Hb.
      * repeat constructor; unfold dot, e1, e2; simpl; lra.
      * change (Forall (fun h => 0 < dot h h)
                  (skipn 500 recent_tail_history)).
        rewrite recent_tail_window.
        repeat constructor; unfold dot, e2; simpl; lra.
Defined.

(** X12: both regularisers keep the order of the raw scores: a larger
    dissimilarity never gets a smaller reward.  The batch regulariser
    gives more than 1/2 exactly to raw scores above 0.1, the historic one
    exactly to raw scores above 0.05. *)
Theorem X12_regularisers_monotone_with_midpoints (raw : list R) (i j : nat)
  (r r' : R) :
  nth_error raw i = Some r ->
  nth_error raw j = Some r' ->
  exists b b' h h' : R,
    nth_error (regularise_batch raw) i = Some b /\
    nth_error (regularise_batch raw) j = Some b' /\
    nth_error (regularise_historic raw) i = Some h /\
    nth_error (regularise_historic raw) j = Some h' /\
    (r <= r' -> b <= b' /\ h <= h') /\
    (b > 1 / 2 <-> r > 0.1) /\
    (h > 1 / 2 <-> r > 0.05).
Proof.
  intros Hi Hj. unfold regularise_batch, regularise_historic.
  do 4 eexists.
  rewrite !nth_error_map, Hi, Hj. cbn [option_map].
  do 4 (split; [reflexivity|]).
  split; [|split].
  - intros Hle. split; apply logistic_decreasing; lra.
  - rewrite logistic_above_half. lra.
  - rewrite logistic_above_half. lra.
Qed.

Lemma X12_regularisers_monotone_with_midpoints_witness :
  exists b b' h h' : R,
    nth_error (regularise_batch [0.02; 0.3]) 0 = Some b /\
    nth_error (regularise_batch [0.02; 0.3]) 1 = Some b' /\
    nth_error (regularise_historic [0.02; 0.3]) 0 = Some h /\
    nth_error (regularise_historic [0.02; 0.3]) 1 = Some h' /\
    (0.02 <= 0.3 -> b <= b' /\ h <= h') /\
    (b > 1 / 2 <-> 0.02 > 0.1) /\
    (h > 1 / 2 <-> 0.02 > 0.05).
Proof.
  apply (@X12_regularisers_monotone_with_midpoints [0.02; 0.3] 0 1 0.02 0.3);
    reflexivity.
Defined.

(** ** Facts about the cosine similarity *)

Lemma dot_cons (a b : R) (x y : Vector) :
  dot (a :: x) (b :: y) = a * b + dot x y.
Proof. reflexivity. Qed.

Lemma dot_nil_r (x : Vector) : dot x [] = 0.
Proof. destruct x; reflexivity. Qed.

Lemma dot_comm (x : Vector) : forall y : Vector, dot x y = dot y x.
Proof.
  induction x as [|a x IH]; intros [|b y].
  - reflexivity.
  - reflexivity.
  - reflexivity.
  - rewrite !dot_cons, IH. lra.
Qed.

Lemma dot_self_nonneg (x : Vector) : 0 <= dot x x.
Proof.
  induction x as [|a x IH]; [unfold dot; simpl; lra|].
  rewrite dot_cons. nra.
Qed.

Lemma cauchy_schwarz (x : Vector) :
  forall y : Vector, dot x y * dot x y <= dot x x * dot y y.
Proof.
  induction x as [|a x IH]; intros [|b y].
  - unfold dot. simpl. lra.
  - unfold dot at 1 2 3. simpl. lra.
  - rewrite dot_nil_r. unfold dot at 2. simpl. lra.
  - rewrite !dot_cons.
    pose proof (IH y) as Hs.
    pose proof (dot_self_nonneg x) as Hp.
    pose proof (dot_self_nonneg y) as Hq.
    clear IH.
    remember (dot x y) as s eqn:Es. remember (dot x x) as p eqn:Ep.
    remember (dot y y) as q eqn:Eq. clear Es Ep Eq.
    assert (Hkey : 2 * (a * b * s) <= a * a * q + b * b * p).
    { destruct (Req_dec q 0) as [Hz|Hnz].
      - subst q. assert (Hs0 : s = 0) by nra. subst s. nra.
      - assert (HQ : 0 < q) by lra.
        pose proof (Rle_0_sqr (a * q - b * s)) as H1. unfold Rsqr in H1.
        assert (H2 : 0 <= b * b * (p * q - s * s)).
        { apply Rmult_le_pos; [apply Rle_0_sqr | lra]. }
        assert (H3 : q * (a * a * q + b * b * p - 2 * (a * b * s))
                     = (a * q - b * s) * (a * q - b * s)
                       + b * b * (p * q - s * s)) by ring.
        assert (H4 : 0 <= q * (a * a * q + b * b * p - 2 * (a * b * s)))
          by lra.
        assert (H5 : 0 <= a * a * q + b * b * p - 2 * (a * b * s)).
        { apply (Rmult_le_reg_l q); [exact HQ|]. lra. }
        lra. }
    nra.
Qed.

Lemma dot_scaled (c d : R) (x : Vector) :
  forall y : Vector,
    dot (map (fun a => a / c) x) (map (fun a => a / d) y)
    = dot x y * (/ c * / d).
Proof.
  induction x as [|a x IH]; intros [|b y]; try (unfold dot; simpl; lra).
  cbn [map]. rewrite !dot_cons, IH. unfold Rdiv. lra.
Qed.

Lemma cosine_formula (x y : Vector) :
  dot (unit_row x) (unit_row y) = dot x y * (/ norm2 x * / norm2 y).
Proof. unfold unit_row. apply dot_scaled. Qed.

Lemma norm2_square (x : Vector) : norm2 x * norm2 x = dot x x.
Proof. unfold norm2. apply sqrt_sqrt. apply dot_self_nonneg. Qed.

Lemma norm2_nonneg (x : Vector) : 0 <= norm2 x.
Proof. unfold norm2. apply sqrt_pos. Qed.

Lemma cosine_bounded (x y : Vector) :
  Rabs (dot (unit_row x) (unit_row y)) <= 1.
Proof.
  rewrite cosine_formula.
  pose proof (norm2_nonneg x) as Hx. pose proof (norm2_nonneg y) as Hy.
  pose proof (norm2_square x) as Sx. pose proof (norm2_square y) as Sy.
  pose proof (cauchy_schwarz x y) as Hcs.
  destruct (Req_dec (norm2 x * norm2 y) 0) as [Hz|Hnz].
  - assert (E : / norm2 x * / norm2 y = 0).
    { rewrite <- Rinv_mult, Hz. apply Rinv_0. }
    rewrite E, Rmult_0_r, Rabs_R0. lra.
  - assert (Hpos : 0 < norm2 x * norm2 y) by nra.
    rewrite <- Rinv_mult.
    rewrite Rabs_mult, (Rabs_pos_eq (/ _))
      by (left; apply Rinv_0_lt_compat; exact Hpos).
    assert (Hd : Rabs (dot x y) <= norm2 x * norm2 y).
    { destruct (Rle_or_lt (Rabs (dot x y)) (norm2 x * norm2 y)) as [H|H];
        [exact H|].
      exfalso.
      assert (Ha : Rabs (dot x y) * Rabs (dot x y) = dot x y * dot x y).
      { unfold Rabs. destruct (Rcase_abs (dot x y)); lra. }
      assert (norm2 x * norm2 y * (norm2 x * norm2 y)
              < Rabs (dot x y) * Rabs (dot x y)) by nra.
      nra. }
    apply (Rmult_le_reg_r (norm2 x * norm2 y)); [exact Hpos|].
    rewrite Rmult_assoc, Rinv_l by lra. lra.
Qed.

Lemma cosine_self (x : Vector) :
  0 < dot x x -> dot (unit_row x) (unit_row x) = 1.
Proof.
  intros H. rewrite cosine_formula, <- Rinv_mult, norm2_square.
  apply Rinv_r. lra.
Qed.

Lemma dissimilarity_entry_bounds (x y : Vector) :
  0 <= 1 - Rabs (dot (unit_row x) (unit_row y)) <= 1.
Proof.
  pose proof (cosine_bounded x y). pose proof (Rabs_pos (dot (unit_row x) (unit_row y))).
  lra.
Qed.

Lemma kth_smallest_in_row (k : nat) (row : list R) :
  (1 <= k <= length row)%nat -> In (kth_smallest Rle_bool 0 k row) row.
Proof.
  intros Hk. unfold kth_smallest.
  apply (Permutation_in _ (sort_ascending_perm Rle_bool row)).
  apply nth_In. rewrite sort_ascending_length. lia.
Qed.

(** The number of zeros among the dissimilarities of [e] is at least the
    number of rows equal to [e], when [e] is not the zero row. *)
Lemma zeros_for_equal_rows (e : Vector) (against : Tensor) :
  0 < dot e e ->
  (count_occ (list_eq_dec Req_dec_T) against e
   <= count_occ Req_dec_T
        (map (fun h => (1 - Rabs (dot (unit_row e) (unit_row h)))%R) against)
        0%R)%nat.
Proof.
  intros He. induction against as [|h t IH]; [simpl; lia|].
  cbn [map count_occ].
  destruct (list_eq_dec Req_dec_T h e) as [->|Hne].
  - rewrite (cosine_self e He), Rabs_R1.
    destruct (Req_dec_T (1 - 1) 0) as [_|Hn]; [lia | lra].
  - destruct (Req_dec_T _ 0); lia.
Qed.

Lemma kth_smallest_zero (k : nat) (row : list R) :
  Forall (fun x => 0 <= x) row ->
  (1 <= k <= count_occ Req_dec_T row 0%R)%nat ->
  kth_smallest Rle_bool 0 k row = 0.
Proof.
  intros Hnn Hk.
  assert (Hlen : (count_occ Req_dec_T row 0%R <= length row)%nat)
    by apply count_occ_bound.
  destruct (@row_kth_smallest_rank k row) as [below [above [Hp [Hl [_ Ha]]]]];
    [lia|].
  set (v := kth_smallest Rle_bool 0 k row) in *.
  assert (Hv : 0 <= v).
  { rewrite Forall_forall in Hnn. apply Hnn.
    apply kth_smallest_in_row. lia. }
  destruct (Req_dec v 0) as [Hz|Hnz]; [exact Hz|]. exfalso.
  rewrite (Permutation_count_occ Req_dec_T) in Hp.
  rewrite (Hp 0), count_occ_app in Hk. cbn [count_occ] in Hk.
  destruct (Req_dec_T v 0) as [E|_]; [contradiction|].
  assert (Hab : count_occ Req_dec_T above 0 = 0%nat).
  { apply count_occ_not_In. intros Hin.
    rewrite Forall_forall in Ha. specialize (Ha 0 Hin). lra. }
  pose proof (count_occ_bound Req_dec_T 0 below). lia.
Qed.

Lemma row_score_floor (slope shift : R) (k : nat) (against : Tensor)
  (e : Vector) :
  0 < dot e e ->
  (1 <= k <= count_occ (list_eq_dec Req_dec_T) against e)%nat ->
  row_score slope shift k against e = 1 / (1 + exp shift).
Proof.
  intros He Hk. unfold row_score.
  rewrite kth_smallest_zero.
  - replace (- slope * 0 + shift) with shift by lra. reflexivity.
  - rewrite Forall_forall. intros x Hin.
    apply in_map_iff in Hin. destruct Hin as [h [<- _]].
    apply dissimilarity_entry_bounds.
  - pose proof (@zeros_for_equal_rows e against He). lia.
Qed.







(** X15: a repeated completion gets the lowest batch reward.  When the
    row [e] at position [i] is not the zero row and occurs in the batch at
    least as often as the clamped rank [min reward_bottom_k rows] (twice
    for the rank 2 of [__init__], itself included), its batch reward is
    [1 / (1 + exp 4)]. *)
Theorem X15_repeated_row_gets_lowest_batch_reward
  (self : DiversityRewardModel) (embeddings : Tensor) (i : nat) (e : Vector) :
  (1 <= reward_bottom_k self)%nat ->
  nth_error embeddings i = Some e ->
  0 < dot e e ->
  (Nat.min (reward_bottom_k self) (length embeddings)
   <= count_occ (list_eq_dec Req_dec_T) embeddings e)%nat ->
  exists rewards : list R,
    get_batch_rewards self embeddings = Return rewards /\
    nth_error rewards i = Some (1 / (1 + exp 4)).
Proof.
  intros Hk Hi He Hcount.
  assert (Hne : embeddings <> []).
  { intros E. rewrite E in Hi. destruct i; discriminate. }
  assert (Hlen : (1 <= length embeddings)%nat).
  { destruct embeddings; [contradiction | simpl; lia]. }
  eexists. split; [apply get_batch_rewards_returns; assumption|].
  rewrite nth_error_map, Hi. cbn [option_map]. f_equal.
  apply row_score_floor; [exact He | lia].
Qed.

Lemma X15_repeated_row_gets_lowest_batch_reward_witness :
  exists rewards : list R,
    get_batch_rewards (init constant_encoder) [e1; e2; e1] = Return rewards /\
    nth_error rewards 2 = Some (1 / (1 + exp 4)).
Proof.
  apply (@X15_repeated_row_gets_lowest_batch_reward
           (init constant_encoder) [e1; e2; e1] 2 e1).
  - apply Nat.leb_le. reflexivity.
  - reflexivity.
  - unfold dot, e1. simpl. lra.
  - cbn [length Nat.min init reward_bottom_k count_occ].
    destruct (list_eq_dec Req_dec_T e1 e1) as [_|H]; [|contradiction].
    destruct (list_eq_dec Req_dec_T e2 e1) as [H|_];
      [symmetry in H; destruct (e1_not_e2 H)|].
    apply Nat.leb_le. reflexivity.
Defined.

(** X16: a completion already in the scored history gets the lowest
    historic reward.  When the row [e] at position [i] of the batch is
    not the zero row and occurs in the history after its first
    [history_range[0]] rows at least as often as the clamped rank
    [min history_reward_bottom_k rows], its historic reward is
    [1 / (1 + exp 50)]. *)
Theorem X16_known_row_gets_lowest_historic_reward
  (self : DiversityRewardModel) (embeddings : Tensor) (i : nat) (e : Vector) :
  (fst (history_range self) + history_reward_bottom_k self
   <= length (historic_embeddings self))%nat ->
  (1 <= history_reward_bottom_k self)%nat ->
  nth_error embeddings i = Some e ->
  0 < dot e e ->
  (Nat.min (history_reward_bottom_k self) (length embeddings)
   <= count_occ (list_eq_dec Req_dec_T)
        (skipn (fst (history_range self)) (historic_embeddings self)) e)%nat ->
  exists rewards : list R,
    get_historic_rewards self embeddings = Return (Some rewards) /\
    nth_error rewards i = Some (1 / (1 + exp 50)).
Proof.
  intros Hsize Hk Hi He Hcount.
  assert (Hne : embeddings <> []).
  { intros E. rewrite E in Hi. destruct i; discriminate. }
  assert (Hlen : (1 <= length embeddings)%nat).
  { destruct embeddings; [contradiction | simpl; lia]. }
  eexists. split; [apply get_historic_rewards_present; assumption|].
  rewrite nth_error_map, Hi. cbn [option_map]. f_equal.
  apply row_score_floor; [exact He | lia].
Qed.

Lemma X16_known_row_gets_lowest_historic_reward_witness :
  exists rewards : list R,
    get_historic_rewards recent_tail_model [e1; e2] = Return (Some rewards) /\
    nth_error rewards 1 = Some (1 / (1 + exp 50)).
Proof.
  apply (@X16_known_row_gets_lowest_historic_reward
           recent_tail_model [e1; e2] 1 e2).
  - apply Nat.leb_le. reflexivity.
  - apply Nat.leb_le. reflexivity.
  - reflexivity.
  - unfold dot, e2. simpl. lra.
  - cbn [recent_tail_model set_historic_embeddings init history_range
           historic_embeddings history_reward_bottom_k fst length Nat.min].
    rewrite recent_tail_window. cbn [count_occ].
    destruct (list_eq_dec Req_dec_T e2 e2) as [_|H]; [|contradiction].
    apply Nat.leb_le. reflexivity.
Defined.

(** ** Further facts about [get_rewards] *)

Lemma get_rewards_raises_in_batch (self : DiversityRewardModel)
  (prompt name : string) (completions : list string) (e : exn) :
  completions <> [] ->
  get_batch_rewards self (sentence_encoder self completions) = Raise e ->
  get_rewards prompt completions name self
  = (Raise e, log_forward_pass self completions).
Proof.
  intros Hc Hb. unfold get_rewards.
  destruct completions as [|c cs]; [contradiction|].
  cbn [length Nat.eqb]. unfold bind, get_embeddings, reading.
  cbn [sentence_encoder log_forward_pass].
  change (get_batch_rewards (log_forward_pass self (c :: cs)))
    with (get_batch_rewards self).
  rewrite Hb. reflexivity.
Qed.

Lemma get_rewards_raises_in_historic (self : DiversityRewardModel)
  (prompt name : string) (completions : list string) (rewards : list R)
  (e : exn) :
  completions <> [] ->
  get_batch_rewards self (sentence_encoder self completions) = Return rewards ->
  get_historic_rewards self (sentence_encoder self completions) = Raise e ->
  get_rewards prompt completions name self
  = (Raise e, log_forward_pass self completions).
Proof.
  intros Hc Hb Hh. unfold get_rewards.
  destruct completions as [|c cs]; [contradiction|].
  cbn [length Nat.eqb]. unfold bind, get_embeddings, reading.
  cbn [sentence_encoder log_forward_pass].
  change (get_batch_rewards (log_forward_pass self (c :: cs)))
    with (get_batch_rewards self).
  rewrite Hb.
  change (get_historic_rewards (log_forward_pass self (c :: cs)))
    with (get_historic_rewards self).
  rewrite Hh. reflexivity.
Qed.

(** X17: a request with completions makes exactly one forward pass, on
    those completions, and changes the history exactly as one call of
    [update_historic_embeddings] on their embeddings does. *)
Theorem X17_request_appends_its_batch_once (self : DiversityRewardModel)
  (prompt name : string) (completions : list string) :
  completions <> [] ->
  length (sentence_encoder self completions) = length completions ->
  (1 <= reward_bottom_k self)%nat ->
  (1 <= history_reward_bottom_k self)%nat ->
  exists (reward_events : list DiversityRewardEvent)
         (self' : DiversityRewardModel),
    get_rewards prompt completions name self
    = (Return (RewardEvents reward_events), self') /\
    forward_passes self' = forward_passes self ++ [completions] /\
    historic_embeddings self'
    = historic_embeddings
        (snd (update_historic_embeddings
                (sentence_encoder self completions) self)).
Proof.
  intros Hc Hlen Hkb Hkh.
  destruct (@get_rewards_total self prompt name completions Hc Hlen Hkb Hkh)
    as [_ [_ Hr]].
  cbv zeta in Hr. eexists; eexists. split; [exact Hr|].
  split; [reflexivity|].
  rewrite update_returns; [reflexivity|].
  intros E. rewrite E in Hlen. destruct completions; [contradiction|].
  discriminate.
Qed.

Lemma X17_request_appends_its_batch_once_witness :
  exists (reward_events : list DiversityRewardEvent)
         (self' : DiversityRewardModel),
    get_rewards "prompt" ["first"; "second"]%string "diversity"
      (init constant_encoder)
    = (Return (RewardEvents reward_events), self') /\
    forward_passes self' = [["first"; "second"]%string] /\
    historic_embeddings self'
    = historic_embeddings
        (snd (update_historic_embeddings [e1; e1] (init constant_encoder))).
Proof.
  apply (@X17_request_appends_its_batch_once (init constant_encoder)
           "prompt" "diversity" ["first"; "second"]%string).
  - discriminate.
  - reflexivity.
  - apply Nat.leb_le. reflexivity.
  - apply Nat.leb_le. reflexivity.
Defined.

(** X18: when the embeddings of a request and the rows of the scored part
    of the history all have a norm other than 0, every event of the
    request has a [reward] between 0 and 1, both included, that is at
    most its [batch] component: the history never raises a reward. *)
Theorem X18_event_rewards_bounded_by_batch (self : DiversityRewardModel)
  (prompt name : string) (completions : list string) :
  completions <> [] ->
  length (sentence_encoder self completions) = length completions ->
  (1 <= reward_bottom_k self)%nat ->
  (1 <= history_reward_bottom_k self)%nat ->
  Forall (fun e => 0 < dot e e) (sentence_encoder self completions) ->
  Forall (fun h => 0 < dot h h)
    (slice_from (fst (history_range self)) (historic_embeddings self)) ->
  exists (reward_events : list DiversityRewardEvent)
         (self' : DiversityRewardModel),
    get_rewards prompt completions name self
    = (Return (RewardEvents reward_events), self') /\
    Forall (fun ev =>
              0 <= reward ev <= 1 /\
              exists b : R, batch ev = Some b /\ reward ev <= b)
      reward_events.
Proof.
  intros Hc Hlen Hkb Hkh _ _.
  destruct (@get_rewards_total self prompt name completions Hc Hlen Hkb Hkh)
    as [_ [_ Hr]].
  cbv zeta in Hr. eexists; eexists. split; [exact Hr|].
  rewrite Forall_forall. intros ev Hin.
  destruct (Nat.ltb (length (historic_embeddings self))
              (fst (history_range self) + history_reward_bottom_k self)).
  - cbn [events_of] in Hin. rewrite map_map in Hin.
    apply in_map_iff in Hin. destruct Hin as [e [<- _]].
    cbn [event_without_history reward batch historic].
    pose proof (row_score_between 40 4
                  (Nat.min (reward_bottom_k self)
                     (length (sentence_encoder self completions)))
                  (sentence_encoder self completions) e) as Hb.
    split; [lra|].
    eexists. split; [reflexivity | lra].
  - cbn [events_of] in Hin.
    apply in_map_iff in Hin. destruct Hin as [[b h] [<- Hbh]].
    cbn [event_with_history reward batch historic fst snd].
    assert (Hb : 0 < b < 1).
    { apply in_combine_l in Hbh. apply in_map_iff in Hbh.
      destruct Hbh as [e [<- _]]. apply row_score_between. }
    assert (Hh : 0 < h < 1).
    { apply in_combine_r in Hbh. apply in_map_iff in Hbh.
      destruct Hbh as [e [<- _]]. apply row_score_between. }
    split; [nra|].
    exists b. split; [reflexivity | nra].
Qed.

Lemma X18_event_rewards_bounded_by_batch_witness :
  exists (reward_events : list DiversityRewardEvent)
         (self' : DiversityRewardModel),
    get_rewards "prompt" ["first"; "second"]%string "diversity"
      recent_tail_model
    = (Return (RewardEvents reward_events), self') /\
    Forall (fun ev =>
              0 <= reward ev <= 1 /\
              exists b : R, batch ev = Some b /\ reward ev <= b)
      reward_events.
Proof.
  apply (@X18_event_rewards_bounded_by_batch recent_tail_model
           "prompt" "diversity" ["first"; "second"]%string).
  - discriminate.
  - reflexivity.
  - apply Nat.leb_le. reflexivity.
  - apply Nat.leb_le. reflexivity.
  - repeat constructor; unfold dot, e1; simpl; lra.
  - change (Forall (fun h => 0 < dot h h) (skipn 500 recent_tail_history)).
    rewrite recent_tail_window.
    repeat constructor; unfold dot, e2; simpl; lra.
Defined.

(** X19: an exception raised while scoring leaves [get_rewards] before
    the history is updated: the same exception is raised, the forward
    pass has been made, and [historic_embeddings] is unchanged.  This is
    what happens with IndexError when the encoder returns no rows for the
    completions. *)
Theorem X19_scoring_error_leaves_history (self : DiversityRewardModel)
  (prompt name : string) (completions : list string) :
  completions <> [] ->
  let embeddings := sentence_encoder self completions in
  let self' := snd (get_rewards prompt completions name self) in
  (forall e : exn,
      get_batch_rewards self embeddings = Raise e \/
      ((exists rewards, get_batch_rewards self embeddings = Return rewards) /\
       get_historic_rewards self embeddings = Raise e) ->
      fst (get_rewards prompt completions name self) = Raise e /\
      historic_embeddings self' = historic_embeddings self /\
      forward_passes self' = forward_passes self ++ [completions]) /\
  (embeddings = [] ->
   fst (get_rewards prompt completions name self) = Raise IndexError).
Proof.
  intros Hc embeddings self'.
  assert (Hraise : forall e : exn,
             get_batch_rewards self embeddings = Raise e \/
             ((exists rewards,
                  get_batch_rewards self embeddings = Return rewards) /\
              get_historic_rewards self embeddings = Raise e) ->
             get_rewards prompt completions name self
             = (Raise e, log_forward_pass self completions)).
  { intros e [Hb | [[rewards Hb] Hh]].
    - apply get_rewards_raises_in_batch; assumption.
    - apply (@get_rewards_raises_in_historic self prompt name completions
               rewards e Hc Hb Hh). }
  split.
  - intros e H. unfold self'. rewrite (Hraise e H).
    repeat split; reflexivity.
  - intros E. rewrite (Hraise IndexError); [reflexivity|].
    left. unfold get_batch_rewards. rewrite E.
    unfold pairwise_cosine_similarity. cbn [map length].
    rewrite Nat.min_0_r. reflexivity.
Qed.

Lemma X19_scoring_error_leaves_history_witness :
  let self := init (fun _ : list string => @nil Vector) in
  fst (get_rewards "prompt" ["first"]%string "diversity" self)
  = Raise IndexError /\
  historic_embeddings
    (snd (get_rewards "prompt" ["first"]%string "diversity" self)) = [].
Proof.
  intros self.
  destruct (@X19_scoring_error_leaves_history self "prompt" "diversity"
              ["first"]%string) as [Hraise Hempty]; [discriminate|].
  split.
  - apply Hempty. reflexivity.
  - apply (Hraise IndexError). left. reflexivity.
Defined.

(** X20: a sequence of requests, empty ones included.  Every request is
    answered in order: an empty one with the pair of an empty tensor and
    [None], another one with as many events as it has completions.  The
    forward passes made are exactly the requests with completions, in
    order, and the history at the end is the last [history_range[1]] rows
    of the old history followed by the collapsed embeddings of those
    requests. *)
Theorem X20_requests_in_sequence (prompt name : string)
  (requests : list (list string)) :
  forall self : DiversityRewardModel,
    (0 < snd (history_range self))%nat ->
    (length (historic_embeddings self) <= snd (history_range self))%nat ->
    (1 <= reward_bottom_k self)%nat ->
    (1 <= history_reward_bottom_k self)%nat ->
    Forall (fun completions =>
              completions <> [] ->
              length (sentence_encoder self completions) = length completions)
      requests ->
    let served :=
      filter (fun completions => negb (Nat.eqb (length completions) 0))
        requests in
    exists (results : list rewards_result) (self' : DiversityRewardModel),
      score_all prompt name requests self = (Return results, self') /\
      Forall2 (fun completions result =>
                 match result with
                 | RewardEvents reward_events =>
                     completions <> [] /\
                     length reward_events = length completions
                 | TensorAndNone t => completions = [] /\ t = []
                 end)
        requests results /\
      forward_passes self' = forward_passes self ++ served /\
      historic_embeddings self'
      = slice_last (snd (history_range self))
          (historic_embeddings self
           ++ concat (map (fun completions =>
                             collapsed (sentence_encoder self completions))
                        served)).
Proof.
  induction requests as [|c rest IH]; intros self Hcap Hfit Hkb Hkh Hall served.
  - exists [], self. unfold served. cbn [filter map concat score_all].
    rewrite !app_nil_r. split; [reflexivity|]. split; [constructor|].
    split; [reflexivity|]. symmetry. apply slice_last_fits. exact Hfit.
  - inversion Hall as [|? ? Hc Hrest]; subst.
    destruct c as [|c0 cs].
    + destruct (IH self Hcap Hfit Hkb Hkh Hrest)
        as [results [self' [Hrun [Hres [Hfp Hhist]]]]].
      exists (TensorAndNone [] :: results), self'.
      unfold served. cbn [filter length Nat.eqb negb].
      split.
      * cbn [score_all]. unfold bind. cbn [get_rewards length Nat.eqb ret].
        rewrite Hrun. reflexivity.
      * split; [constructor; [split; reflexivity | exact Hres]|].
        split; [exact Hfp | exact Hhist].
    + assert (Hne : c0 :: cs <> []) by discriminate.
      specialize (Hc Hne).
      destruct (@get_rewards_total self prompt name (c0 :: cs) Hne Hc Hkb Hkh)
        as [_ [_ Hr]].
      cbv zeta in Hr.
      destruct (IH (after_scoring self (c0 :: cs))) as
        [results [self' [Hrun [Hres [Hfp Hhist]]]]].
      * exact Hcap.
      * cbn [after_scoring set_historic_embeddings historic_embeddings
               history_range log_forward_pass].
        rewrite slice_last_length by exact Hcap. lia.
      * exact Hkb.
      * exact Hkh.
      * exact Hrest.
      * eexists; exists self'.
        split.
        { cbn [score_all]. unfold bind at 1. rewrite Hr.
          unfold bind at 1. rewrite Hrun. reflexivity. }
        split.
        { constructor; [|exact Hres]. split; [exact Hne|].
          rewrite events_of_length.
          - rewrite length_map. exact Hc.
          - destruct (Nat.ltb _ _); [exact I|].
            rewrite !length_map. reflexivity. }
        unfold served. cbn [filter length Nat.eqb negb].
        split.
        { rewrite Hfp.
          cbn [after_scoring set_historic_embeddings forward_passes
                 log_forward_pass].
          rewrite <- app_assoc. reflexivity. }
        { rewrite Hhist.
          cbn [after_scoring set_historic_embeddings historic_embeddings
                 history_range log_forward_pass sentence_encoder map concat].
          rewrite slice_last_app by exact Hcap.
          rewrite <- app_assoc. reflexivity. }
Qed.

Lemma X20_requests_in_sequence_witness :
  exists (results : list rewards_result) (self' : DiversityRewardModel),
    score_all "prompt" "diversity"
      [["first"; "second"]; []; ["third"]]%string (init constant_encoder)
    = (Return results, self') /\
    length results = 3%nat /\
    forward_passes self' = [["first"; "second"]; ["third"]]%string.
Proof.
  destruct (@X20_requests_in_sequence "prompt" "diversity"
              [["first"; "second"]; []; ["third"]]%string
              (init constant_encoder))
    as [results [self' [Hrun [Hres [Hfp _]]]]].
  - apply Nat.ltb_lt. reflexivity.
  - apply Nat.leb_le. reflexivity.
  - apply Nat.leb_le. reflexivity.
  - apply Nat.leb_le. reflexivity.
  - repeat constructor; intros _; reflexivity.
  - exists results, self'. split; [exact Hrun|]. split; [|exact Hfp].
    apply Forall2_length in Hres. symmetry. exact Hres.
Defined.

(** X21: [normalize_rewards] only produces 0 and 1, and for a boundary in
    [0, 1), as the 0.5 of [__init__], binarising a second time changes
    nothing. *)
Theorem X21_normalize_rewards_idempotent (self : DiversityRewardModel)
  (raw_rewards : list R) :
  Forall (fun y => y = 0 \/ y = 1) (normalize_rewards self raw_rewards) /\
  (0 <= boundary self < 1 ->
   normalize_rewards self (normalize_rewards self raw_rewards)
   = normalize_rewards self raw_rewards).
Proof.
  unfold normalize_rewards. split.
  - rewrite Forall_forall. intros y Hin.
    apply in_map_iff in Hin. destruct Hin as [r [<- _]].
    destruct (Rgt_bool r (boundary self)); [right | left]; reflexivity.
  - intros Hb. rewrite map_map. apply map_ext. intros r.
    destruct (Rgt_bool r (boundary self)).
    + rewrite Rgt_bool_true by lra. reflexivity.
    + rewrite Rgt_bool_false by lra. reflexivity.
Qed.

Lemma X21_normalize_rewards_idempotent_witness :
  normalize_rewards (init constant_encoder)
    (normalize_rewards (init constant_encoder) [0.2; 0.9])
  = normalize_rewards (init constant_encoder) [0.2; 0.9].
Proof.
  apply (proj2 (X21_normalize_rewards_idempotent (init constant_encoder)
                  [0.2; 0.9])).
  cbn [init boundary]. lra.
Defined.



(** ** Facts about [mean_pooling] *)

Lemma traverse_expand_same (A : Type) (n : nat) (rows : list (list A)) :
  Forall (fun row => length row = n) rows ->
  traverse (expand_dim n) rows = Return rows.
Proof.
  induction 1 as [|row rows Hrow _ IH]; [reflexivity|].
  cbn [traverse]. unfold expand_dim at 1.
  rewrite Hrow, Nat.eqb_refl. cbn [outcome_bind]. rewrite IH. reflexivity.
Qed.

Lemma expand_mask_shaped (b n d : nat) (attention_mask : list (list Z)) :
  length attention_mask = b ->
  Forall (fun row => length row = n) attention_mask ->
  expand_mask (b, n, d) attention_mask
  = Return (map (map (fun m => repeat (IZR m) d)) attention_mask).
Proof.
  intros Hb Hn. unfold expand_mask, expand_dim at 1.
  rewrite Hb, Nat.eqb_refl. cbn [outcome_bind].
  rewrite (traverse_expand_same Hn). reflexivity.
Qed.

Lemma vec_add_repeat (a b : R) (d : nat) :
  vec_add (repeat a d) (repeat b d) = repeat (a + b) d.
Proof.
  induction d as [|d IH]; [reflexivity|].
  unfold vec_add in *. cbn. rewrite IH. reflexivity.
Qed.

Lemma vec_add_zero_r (v : Vector) :
  vec_add v (repeat 0 (length v)) = v.
Proof.
  induction v as [|a v IH]; [reflexivity|].
  unfold vec_add in *. cbn. rewrite IH. f_equal. lra.
Qed.

Lemma vec_add_zero_l (v : Vector) :
  vec_add (repeat 0 (length v)) v = v.
Proof.
  induction v as [|a v IH]; [reflexivity|].
  unfold vec_add in *. cbn. rewrite IH. f_equal. lra.
Qed.

Lemma vec_mul_one (v : Vector) : vec_mul v (repeat 1 (length v)) = v.
Proof.
  induction v as [|a v IH]; [reflexivity|].
  unfold vec_mul in *. cbn. rewrite IH. f_equal. lra.
Qed.

Lemma vec_mul_zero (v : Vector) :
  vec_mul v (repeat 0 (length v)) = repeat 0 (length v).
Proof.
  induction v as [|a v IH]; [reflexivity|].
  unfold vec_mul in *. cbn. rewrite IH. f_equal. lra.
Qed.

Lemma vec_div_repeat (c : R) (v : Vector) :
  vec_div v (repeat c (length v)) = map (fun s => s / c) v.
Proof.
  induction v as [|a v IH]; [reflexivity|].
  unfold vec_div in *. cbn. rewrite IH. reflexivity.
Qed.

Lemma clamp_min_repeat (bound c : R) (d : nat) :
  clamp_min bound (repeat c d) = repeat (Rmax c bound) d.
Proof.
  unfold clamp_min. induction d as [|d IH]; [reflexivity|].
  cbn. rewrite IH. reflexivity.
Qed.

Lemma sum_tokens_length (d : nat) (tokens : list Vector) :
  Forall (fun row => length row = d) tokens ->
  length (sum_tokens d tokens) = d.
Proof.
  induction 1 as [|row tokens Hrow _ IH].
  - apply repeat_length.
  - change (sum_tokens d (row :: tokens))
      with (vec_add row (sum_tokens d tokens)).
    unfold vec_add. rewrite length_map, length_combine, IH, Hrow. lia.
Qed.

Lemma sum_tokens_mask (d : nat) (ms : list Z) :
  sum_tokens d (map (fun m => repeat (IZR m) d) ms)
  = repeat (fold_right Rplus 0 (map IZR ms)) d.
Proof.
  induction ms as [|m ms IH]; [reflexivity|].
  unfold sum_tokens in *. cbn [map fold_right]. rewrite IH.
  apply vec_add_repeat.
Qed.

Lemma kept_count (tokens : list Vector) :
  forall ms : list Z,
    length tokens = length ms ->
    Forall (fun m => m = 0%Z \/ m = 1%Z) ms ->
    fold_right Rplus 0 (map IZR ms)
    = INR (length (filter (fun q : Vector * Z => Z.eqb (snd q) 1)
                     (combine tokens ms))).
Proof.
  induction tokens as [|t tokens IH]; intros [|m ms] Hlen Hbin;
    try discriminate; [reflexivity|].
  inversion Hbin as [|? ? Hm Hms]; subst.
  cbn [map fold_right combine filter snd].
  rewrite (IH ms) by (simpl in Hlen; congruence || assumption).
  destruct Hm as [-> | ->]; cbn [Z.eqb Pos.eqb].
  - lra.
  - cbn [length]. rewrite S_INR. lra.
Qed.

Lemma weighted_sum_is_kept_sum (d : nat) (tokens : list Vector) :
  forall ms : list Z,
    length tokens = length ms ->
    Forall (fun row => length row = d) tokens ->
    Forall (fun m => m = 0%Z \/ m = 1%Z) ms ->
    sum_tokens d
      (map (fun q => vec_mul (fst q) (snd q))
         (combine tokens (map (fun m => repeat (IZR m) d) ms)))
    = sum_tokens d
        (map fst (filter (fun q : Vector * Z => Z.eqb (snd q) 1)
                    (combine tokens ms))).
Proof.
  induction tokens as [|t tokens IH]; intros [|m ms] Hlen Hd Hbin;
    try discriminate; [reflexivity|].
  inversion Hbin as [|? ? Hm Hms]; subst.
  inversion Hd as [|? ? Ht Hts]; subst.
  cbn [map combine filter snd fst].
  unfold sum_tokens in *. cbn [fold_right].
  rewrite (IH ms) by (simpl in Hlen; congruence || assumption).
  assert (Hrest :
            length (fold_right vec_add (repeat 0 (length t))
                      (map fst (filter (fun q : Vector * Z => Z.eqb (snd q) 1)
                                  (combine tokens ms))))
            = length t).
  { apply (@sum_tokens_length (length t)).
    rewrite Forall_forall. intros row Hin.
    apply in_map_iff in Hin. destruct Hin as [[row' m'] [<- Hin]].
    apply filter_In in Hin. destruct Hin as [Hin _].
    apply in_combine_l in Hin. rewrite Forall_forall in Hts.
    apply Hts. exact Hin. }
  destruct Hm as [-> | ->]; cbn [Z.eqb Pos.eqb map fst fold_right].
  - rewrite vec_mul_zero. rewrite <- Hrest at 1. apply vec_add_zero_l.
  - rewrite vec_mul_one. reflexivity.
Qed.

Lemma pooled_row_value (d : nat) (tokens : list Vector) (ms : list Z) :
  length tokens = length ms ->
  Forall (fun row => length row = d) tokens ->
  Forall (fun m => m = 0%Z \/ m = 1%Z) ms ->
  let kept :=
    map fst (filter (fun q : Vector * Z => Z.eqb (snd q) 1)
               (combine tokens ms)) in
  vec_div
    (sum_tokens d
       (map (fun q => vec_mul (fst q) (snd q))
          (combine tokens (map (fun m => repeat (IZR m) d) ms))))
    (clamp_min 1e-9 (sum_tokens d (map (fun m => repeat (IZR m) d) ms)))
  = match kept with
    | [] => repeat 0 d
    | _ => map (fun x => x / INR (length kept)) (sum_tokens d kept)
    end.
Proof.
  intros Hlen Hd Hbin kept.
  rewrite (@weighted_sum_is_kept_sum d tokens ms Hlen Hd Hbin).
  rewrite sum_tokens_mask, (@kept_count tokens ms Hlen Hbin), clamp_min_repeat.
  fold kept.
  replace (length (filter (fun q : Vector * Z => Z.eqb (snd q) 1)
                     (combine tokens ms)))
    with (length kept) by (unfold kept; apply length_map).
  assert (Hk : length (sum_tokens d kept) = d).
  { apply sum_tokens_length. rewrite Forall_forall. intros row Hin.
    unfold kept in Hin. apply in_map_iff in Hin.
    destruct Hin as [[row' m'] [<- Hin]].
    apply filter_In in Hin. destruct Hin as [Hin _].
    apply in_combine_l in Hin. rewrite Forall_forall in Hd.
    apply Hd. exact Hin. }
  pose proof (vec_div_repeat (Rmax (INR (length kept)) 1e-9)
                (sum_tokens d kept)) as Hv.
  rewrite Hk in Hv. rewrite Hv. clear Hv Hk.
  clearbody kept. destruct kept as [|t kept'].
  - cbn [sum_tokens fold_right length map].
    clear. induction d as [|d IH]; [reflexivity|].
    cbn [repeat map]. rewrite IH. f_equal. unfold Rdiv. lra.
  - apply map_ext. intros x. f_equal.
    apply Rmax_left.
    assert (1 <= INR (length (t :: kept'))).
    { cbn [length]. rewrite S_INR. pose proof (pos_INR (length kept')). lra. }
    lra.
Qed.

(** X23: [mean_pooling] averages the embeddings of the tokens with mask
    1.  For token embeddings of size (b, n, d) and a mask of 0s and 1s
    with b rows of n entries it returns b rows; the row of a sentence is
    the sum of the embeddings of its tokens with mask 1 divided by their
    number, whatever the embeddings of the tokens with mask 0, and the
    zero row when every token of the sentence has mask 0. *)
Theorem X23_mean_pooling_averages_kept_tokens
  (model_output : Tensor3 * Tensor) (attention_mask : list (list Z))
  (b n d : nat) :
  size3 (fst model_output) = (b, n, d) ->
  shaped (fst model_output) ->
  length attention_mask = b ->
  Forall (fun row =>
            length row = n /\ Forall (fun m => m = 0%Z \/ m = 1%Z) row)
    attention_mask ->
  exists pooled : Tensor,
    mean_pooling model_output attention_mask = Return pooled /\
    length pooled = b /\
    forall (s : nat) (tokens : list Vector) (ms : list Z),
      nth_error (entries3 (fst model_output)) s = Some tokens ->
      nth_error attention_mask s = Some ms ->
      let kept :=
        map fst (filter (fun q : Vector * Z => Z.eqb (snd q) 1)
                   (combine tokens ms)) in
      nth_error pooled s
      = Some match kept with
             | [] => repeat 0 d
             | _ => map (fun x => x / INR (length kept)) (sum_tokens d kept)
             end.
Proof.
  intros Hsize Hshaped Hb Hmask.
  unfold shaped in Hshaped. rewrite Hsize in Hshaped.
  destruct Hshaped as [Hrows Htokens].
  unfold mean_pooling. rewrite Hsize. cbn [snd].
  rewrite (@expand_mask_shaped b n d attention_mask Hb).
  2:{ revert Hmask. apply Forall_impl. intros row [H _]. exact H. }
  cbn [outcome_bind]. eexists. split; [reflexivity|].
  split.
  - rewrite length_map, length_combine, length_map. lia.
  - intros s tokens ms Hs Hm.
    rewrite nth_error_map.
    rewrite (@nth_error_combine _ _ _ _ s tokens
               (map (fun m => repeat (IZR m) d) ms) Hs).
    2:{ rewrite nth_error_map, Hm. reflexivity. }
    cbn [option_map fst snd]. f_equal.
    rewrite Forall_forall in Htokens, Hmask.
    destruct (Htokens tokens (nth_error_In _ _ Hs)) as [Ht Hd].
    destruct (Hmask ms (nth_error_In _ _ Hm)) as [Hn Hbin].
    apply (@pooled_row_value d tokens ms);
      [exact (eq_trans Ht (eq_sym Hn)) | exact Hd | exact Hbin].
Qed.

Lemma X23_mean_pooling_averages_kept_tokens_witness :
  mean_pooling
    ({| size3 := (1%nat, 3%nat, 2%nat);
        entries3 := [[[1; 2]; [3; 6]; [100; 200]]] |}, [])
    [[1; 1; 0]%Z]
  = Return [map (fun x => x / INR 2) (sum_tokens 2 [[1; 2]; [3; 6]])].
Proof.
  destruct (@X23_mean_pooling_averages_kept_tokens
              ({| size3 := (1%nat, 3%nat, 2%nat);
                  entries3 := [[[1; 2]; [3; 6]; [100; 200]]] |}, [])
              [[1; 1; 0]%Z] 1 3 2) as [pooled [Hp [Hl Hrow]]].
  - reflexivity.
  - cbn. repeat constructor.
  - reflexivity.
  - repeat constructor; tauto.
  - rewrite Hp. f_equal.
    specialize (Hrow 0%nat [[1; 2]; [3; 6]; [100; 200]] [1; 1; 0]%Z
                  eq_refl eq_refl).
    cbn in Hrow.
    destruct pooled as [|row [|row' rest]]; try discriminate.
    cbn in Hrow. injection Hrow as ->. reflexivity.
Defined.

(** X24: the mask has to fit the token embeddings.  A mask whose number
    of rows is neither the number of sentences nor 1 makes [mean_pooling]
    raise RuntimeError; a mask of one row is used for every sentence. *)
Theorem X24_mean_pooling_mask_shape (model_output : Tensor3 * Tensor)
  (attention_mask : list (list Z)) :
  let b := fst (fst (size3 (fst model_output))) in
  (length attention_mask <> b -> length attention_mask <> 1%nat ->
   mean_pooling model_output attention_mask = Raise RuntimeError) /\
  (forall row : list Z,
      mean_pooling model_output [row]
      = mean_pooling model_output (repeat row b)).
Proof.
  intros b. unfold mean_pooling, expand_mask.
  destruct (size3 (fst model_output)) as [[b' n] d] eqn:E.
  cbn [fst] in b. subst b. split.
  - intros Hb H1. unfold expand_dim at 1.
    destruct (Nat.eqb_spec (length attention_mask) b'); [contradiction|].
    destruct attention_mask as [|x [|y rest]]; try reflexivity.
    simpl in H1. contradiction.
  - intros row. unfold expand_dim at 1 3.
    rewrite repeat_length, Nat.eqb_refl. cbn [length].
    destruct (Nat.eqb_spec 1 b') as [<-|_]; reflexivity.
Qed.

Lemma X24_mean_pooling_mask_shape_witness :
  mean_pooling
    ({| size3 := (3%nat, 1%nat, 1%nat); entries3 := [[[1]]; [[2]]; [[3]]] |},
     [])
    [[1%Z]; [1%Z]]
  = Raise RuntimeError.
Proof.
  apply (proj1 (X24_mean_pooling_mask_shape
                  ({| size3 := (3%nat, 1%nat, 1%nat);
                      entries3 := [[[1]]; [[2]]; [[3]]] |}, [])
                  [[1%Z]; [1%Z]])).
  - cbn. discriminate.
  - cbn. discriminate.
Defined.

(** ** Facts about the normalised embeddings and the first requests *)

Lemma F_normalize_unit_row (row : Vector) :
  1e-12 <= norm2 row ->
  let e := map (fun a => a / Rmax (norm2 row) 1e-12) row in
  dot e e = 1 /\ unit_row e = e.
Proof.
  intros Hn e.
  assert (He : dot e e = 1).
  { unfold e. rewrite Rmax_left by exact Hn.
    rewrite dot_scaled, <- Rinv_mult, norm2_square.
    assert (Hpos : 0 < norm2 row) by lra.
    rewrite <- norm2_square. apply Rinv_r. nra. }
  split; [exact He | apply unit_row_of_unit; exact He].
Qed.

(** X25: what [get_embeddings] does after the transformer.  Whenever the
    pooling returns, the pooled rows are normalised one by one; a pooled
    row of norm at least 1e-12 becomes a row of norm 1, which the
    normalisation inside the cosine similarity leaves as it is. *)
Theorem X25_pooled_rows_become_unit_rows (model_output : Tensor3 * Tensor)
  (attention_mask : list (list Z)) (pooled : Tensor) :
  mean_pooling model_output attention_mask = Return pooled ->
  exists embeddings : Tensor,
    pool_and_normalize model_output attention_mask = Return embeddings /\
    length embeddings = length pooled /\
    forall (s : nat) (row : Vector),
      nth_error pooled s = Some row ->
      1e-12 <= norm2 row ->
      exists e : Vector,
        nth_error embeddings s = Some e /\ dot e e = 1 /\ unit_row e = e.
Proof.
  intros Hp. unfold pool_and_normalize. rewrite Hp. cbn [outcome_bind].
  eexists. split; [reflexivity|]. unfold F_normalize.
  split; [apply length_map|].
  intros s row Hs Hn. eexists.
  rewrite nth_error_map, Hs. cbn [option_map].
  split; [reflexivity|]. apply F_normalize_unit_row. exact Hn.
Qed.

Lemma X25_pooled_rows_become_unit_rows_witness :
  exists embeddings : Tensor,
    pool_and_normalize
      ({| size3 := (1%nat, 1%nat, 2%nat); entries3 := [[[3; 4]]] |}, [])
      [[1%Z]]
    = Return embeddings /\
    length embeddings = 1%nat.
Proof.
  destruct (@X25_pooled_rows_become_unit_rows
              ({| size3 := (1%nat, 1%nat, 2%nat); entries3 := [[[3; 4]]] |},
               [])
              [[1%Z]]
              [vec_div (sum_tokens 2 [vec_mul [3; 4] (repeat (IZR 1) 2)])
                 (clamp_min 1e-9 (sum_tokens 2 [repeat (IZR 1) 2]))])
    as [embeddings [He [Hl _]]].
  - reflexivity.
  - exists embeddings. split; [exact He | exact Hl].
Defined.

Lemma collapsed_at_most (embeddings : Tensor) :
  (length (collapsed embeddings) <= length embeddings)%nat.
Proof.
  destruct embeddings as [|first rest]; [simpl; lia|].
  apply collapsed_length. discriminate.
Qed.

(** X26: cold start.  While the rows of the history and the completions
    of a sequence of requests together stay below
    [history_range[0] + history_reward_bottom_k], no event of any of
    these requests has a [historic] component, and every [reward] is the
    [batch] component. *)
Theorem X26_no_historic_component_at_cold_start (prompt name : string)
  (requests : list (list string)) :
  forall self : DiversityRewardModel,
    (0 < snd (history_range self))%nat ->
    (1 <= reward_bottom_k self)%nat ->
    (1 <= history_reward_bottom_k self)%nat ->
    Forall (fun completions =>
              completions <> [] ->
              length (sentence_encoder self completions) = length completions)
      requests ->
    (length (historic_embeddings self) + length (concat requests)
     < fst (history_range self) + history_reward_bottom_k self)%nat ->
    exists (results : list rewards_result) (self' : DiversityRewardModel),
      score_all prompt name requests self = (Return results, self') /\
      length results = length requests /\
      Forall (fun result =>
                match result with
                | RewardEvents reward_events =>
                    Forall (fun ev => historic ev = None /\
                                      batch ev = Some (reward ev))
                      reward_events
                | TensorAndNone _ => True
                end)
        results.
Proof.
  induction requests as [|c rest IH]; intros self Hcap Hkb Hkh Hall Hcold.
  - exists [], self. split; [reflexivity|]. split; [reflexivity | constructor].
  - inversion Hall as [|? ? Hc Hrest]; subst.
    cbn [concat] in Hcold. rewrite length_app in Hcold.
    destruct c as [|c0 cs].
    + destruct (IH self Hcap Hkb Hkh Hrest) as [results [self' [Hrun [Hl Hres]]]].
      { simpl in Hcold. lia. }
      exists (TensorAndNone [] :: results), self'.
      split.
      * cbn [score_all]. unfold bind. cbn [get_rewards length Nat.eqb ret].
        rewrite Hrun. reflexivity.
      * split; [simpl; lia | constructor; [exact I | exact Hres]].
    + assert (Hne : c0 :: cs <> []) by discriminate.
      specialize (Hc Hne).
      destruct (@get_rewards_total self prompt name (c0 :: cs) Hne Hc Hkb Hkh)
        as [_ [_ Hr]].
      cbv zeta in Hr.
      assert (Hlt : Nat.ltb (length (historic_embeddings self))
                      (fst (history_range self)
                       + history_reward_bottom_k self) = true).
      { apply Nat.ltb_lt. lia. }
      rewrite Hlt in Hr. cbn [events_of] in Hr.
      destruct (IH (after_scoring self (c0 :: cs)))
        as [results [self' [Hrun [Hl Hres]]]].
      * exact Hcap.
      * exact Hkb.
      * exact Hkh.
      * exact Hrest.
      * cbn [after_scoring set_historic_embeddings historic_embeddings
               history_range history_reward_bottom_k log_forward_pass
               sentence_encoder].
        rewrite slice_last_length by exact Hcap.
        rewrite length_app.
        pose proof (collapsed_at_most (sentence_encoder self (c0 :: cs))).
        lia.
      * eexists; exists self'.
        split.
        { cbn [score_all]. unfold bind at 1. rewrite Hr.
          unfold bind at 1. rewrite Hrun. reflexivity. }
        split; [simpl; lia|].
        constructor; [|exact Hres].
        rewrite Forall_forall. intros ev Hin.
        rewrite map_map in Hin. apply in_map_iff in Hin.
        destruct Hin as [e [<- _]]. split; reflexivity.
Qed.

Lemma X26_no_historic_component_at_cold_start_witness :
  exists (results : list rewards_result) (self' : DiversityRewardModel),
    score_all "prompt" "diversity" [["first"; "second"]; ["third"]]%string
      (init constant_encoder)
    = (Return results, self') /\
    length results = 2%nat.
Proof.
  destruct (@X26_no_historic_component_at_cold_start "prompt" "diversity"
              [["first"; "second"]; ["third"]]%string (init constant_encoder))
    as [results [self' [Hrun [Hl _]]]].
  - apply Nat.ltb_lt. reflexivity.
  - apply Nat.leb_le. reflexivity.
  - apply Nat.leb_le. reflexivity.
  - repeat constructor; intros _; reflexivity.
  - apply Nat.ltb_lt. reflexivity.
  - exists results, self'. split; [exact Hrun | exact Hl].
Defined.
